(** * ReviewSystem: the confidential peer-review contract

    A shallow embedding of the Solidity contract [ReviewSystem] (the
    contract text carried at the end of [frontend/web/src/App.tsx]) and
    the properties of its record lifecycle: paper submission, review
    submission, homomorphic aggregation, publication and the one-shot
    verification of a review score.

    The contract talks to an external confidential-compute library,
    [FHE] of [@fhevm/solidity].  That library is not part of the
    repository, so its operations are an interface here ([Class FHE]);
    the contract is written once, over any implementation of it. *)

From Stdlib Require Import ZArith NArith Ascii String List Permutation Lia.
From stdpp Require Import base option list gmap strings.

Local Open Scope string_scope.
Local Open Scope list_scope.

(** ** Solidity base types *)

(** [address]: a 160-bit account; [uint256]: block timestamps. *)
Definition address := N.
Definition uint256 := N.
(** Solidity [bytes] and [string]: byte sequences. *)
Definition bytes := string.

(** ** The confidential-compute library *)

(** The operations of [FHE] the contract calls.  [euint32] is the
    encrypted-handle type, [externalEuint32] the handle of a user input
    before its proof is checked.  [FHE_uninitialized] is the all-zero
    storage word an [euint32] slot holds before anything is written to
    it.  [FHE_checkSignatures] reverts in the library when the proof does
    not bind the clear values to the handles; here it answers [false].
    [FHE_decrypt] is what the decryption oracle would eventually answer
    for a handle; the contract never calls it. *)
Class FHE := {
  euint32 : Type;
  externalEuint32 : Type;
  bytes32 : Type;
  FHE_uninitialized : euint32;
  FHE_zero : euint32;
  FHE_isZero : euint32 -> bool;
  FHE_add : euint32 -> euint32 -> euint32;
  FHE_fromExternal : externalEuint32 -> bytes -> euint32;
  FHE_isInitialized : euint32 -> bool;
  FHE_toBytes32 : euint32 -> bytes32;
  FHE_checkSignatures : list bytes32 -> bytes -> bytes -> bool;
  FHE_decrypt : euint32 -> Z
}.

(** ** Transaction outcomes *)

(** Every way a call of the contract reverts, named after the condition
    guarded.  [revert_reason] gives the message of the [require] in the
    source; [InvalidProof] is the revert inside [FHE.checkSignatures],
    for which the source has no message of its own. *)
Inductive Error :=
| PaperAlreadyExists
| InvalidCiphertext (what : string)
| PaperNotFound
| NothingToAggregate
| ScoresNotAggregated
| AlreadyPublished
| InvalidReviewIndex
| AlreadyVerified
| InvalidProof.

Definition revert_reason (e : Error) : option string :=
  match e with
  | PaperAlreadyExists => Some "Paper already exists"
  | InvalidCiphertext what => Some ("Invalid encrypted " ++ what)%string
  | PaperNotFound => Some "Paper does not exist"
  | NothingToAggregate => Some "No reviews to aggregate"
  | ScoresNotAggregated => Some "Scores not aggregated"
  | AlreadyPublished => Some "Paper already published"
  | InvalidReviewIndex => Some "Invalid review index"
  | AlreadyVerified => Some "Review already verified"
  | InvalidProof => None
  end.

(** A call either commits a result or reverts; a revert discards every
    write of the call. *)
Inductive Result (A : Type) :=
| Ok (a : A)
| Revert (e : Error).
Arguments Ok {A} a.
Arguments Revert {A} e.

Notation "'require' b 'or' e ';;' k" :=
  (if b then k else Revert e)
  (at level 10, b at level 0, e at level 0, k at level 200,
   format "'[v' 'require'  b  'or'  e ';;' '/' k ']'").

(** Case analysis on the [require]s of a call that returned [Ok]. *)
Ltac passed :=
  repeat match goal with
  | H : (if ?b then _ else Revert _) = Ok _ |- _ =>
      destruct b eqn:?; [|discriminate H]
  | H : Ok _ = Ok _ |- _ => injection H as H
  end.

(** [msg.sender] and [block.timestamp] of a call. *)
Record Env := { msg_sender : address; block_timestamp : uint256 }.

(** ** abi.encodePacked of the review key *)

(** [uint256] packed: 32 bytes, big-endian. *)
Fixpoint be_bytes (k : nat) (n : N) : string :=
  match k with
  | O => ""
  | S k' => be_bytes k' (n / 256) ++ String (ascii_of_N (n mod 256)) ""
  end.

Definition uint256_packed (n : N) : string := be_bytes 32 (n mod 2 ^ 256).

(** [string(abi.encodePacked(paperId, "_", uint256(index)))] *)
Definition reviewKey (paperId : string) (index : nat) : string :=
  paperId ++ "_" ++ uint256_packed (N.of_nat index).

(** ** Storage *)

Section Contract.
Context {F : FHE}.

(** [struct Review] *)
Record Review := {
  encryptedScore : euint32;
  encryptedComments : string;
  reviewer : address;
  submissionDate : uint256;
  isVerified : bool
}.

(** [struct Paper].  The source declares [encryptedContent] a [string]
    and stores the handle [FHE.fromExternal] returns in it; the field
    holds what is stored.  [paperSubmissionDate] is the source's
    [submissionDate] of [Paper] (the name is taken by [Review]). *)
Record Paper := {
  title : string;
  encryptedContent : euint32;
  submitter : address;
  paperSubmissionDate : uint256;
  reviews : list Review;
  aggregatedScore : euint32;
  isPublished : bool
}.

Inductive Event :=
| PaperSubmitted (paperId : string) (who : address)
| ReviewSubmitted (paperId : string) (who : address)
| ScoreAggregated (paperId : string) (total : euint32)
| PaperPublished (paperId : string).

(** Permissions granted through the library. *)
Inductive Grant :=
| AllowThis (h : euint32)
| MakePubliclyDecryptable (h : euint32).

(** The contract's storage: [st_papers] is the mapping [papers],
    [st_reviews] the top-level mapping [reviews]; the event log and the
    grants made so far ride along. *)
Record State := {
  st_papers : gmap string Paper;
  st_reviews : gmap string Review;
  st_grants : list Grant;
  st_events : list Event
}.

Definition initial : State :=
  {| st_papers := ∅; st_reviews := ∅; st_grants := []; st_events := [] |}.

(** A mapping slot never written reads as the all-zero value. *)
Definition zeroReview : Review :=
  {| encryptedScore := FHE_uninitialized; encryptedComments := "";
     reviewer := 0%N; submissionDate := 0%N; isVerified := false |}.

Definition zeroPaper : Paper :=
  {| title := ""; encryptedContent := FHE_uninitialized; submitter := 0%N;
     paperSubmissionDate := 0%N; reviews := []; aggregatedScore := FHE_uninitialized;
     isPublished := false |}.

(** [papers[paperId]] and [reviews[key]] *)
Definition paperAt (s : State) (paperId : string) : Paper :=
  default zeroPaper (st_papers s !! paperId).

Definition reviewAt (s : State) (key : string) : Review :=
  default zeroReview (st_reviews s !! key).

(** [rs[i]] of a storage array.  Solidity panics on an index out of
    range; every read below comes after the bounds check of its
    function, or inside the bounds of its loop. *)
Definition index (rs : list Review) (i : nat) : Review :=
  default zeroReview (rs !! i).

(** Field writes *)
Definition set_isVerified (b : bool) (r : Review) : Review :=
  {| encryptedScore := encryptedScore r; encryptedComments := encryptedComments r;
     reviewer := reviewer r; submissionDate := submissionDate r; isVerified := b |}.

Definition set_reviews (rs : list Review) (p : Paper) : Paper :=
  {| title := title p; encryptedContent := encryptedContent p; submitter := submitter p;
     paperSubmissionDate := paperSubmissionDate p; reviews := rs;
     aggregatedScore := aggregatedScore p; isPublished := isPublished p |}.

Definition set_aggregatedScore (h : euint32) (p : Paper) : Paper :=
  {| title := title p; encryptedContent := encryptedContent p; submitter := submitter p;
     paperSubmissionDate := paperSubmissionDate p; reviews := reviews p;
     aggregatedScore := h; isPublished := isPublished p |}.

Definition set_isPublished (b : bool) (p : Paper) : Paper :=
  {| title := title p; encryptedContent := encryptedContent p; submitter := submitter p;
     paperSubmissionDate := paperSubmissionDate p; reviews := reviews p;
     aggregatedScore := aggregatedScore p; isPublished := b |}.

Definition write_paper (paperId : string) (p : Paper) (s : State) : State :=
  {| st_papers := <[paperId := p]> (st_papers s); st_reviews := st_reviews s;
     st_grants := st_grants s; st_events := st_events s |}.

Definition write_review (key : string) (r : Review) (s : State) : State :=
  {| st_papers := st_papers s; st_reviews := <[key := r]> (st_reviews s);
     st_grants := st_grants s; st_events := st_events s |}.

Definition grant (g : Grant) (s : State) : State :=
  {| st_papers := st_papers s; st_reviews := st_reviews s;
     st_grants := st_grants s ++ [g]; st_events := st_events s |}.

Definition emit (e : Event) (s : State) : State :=
  {| st_papers := st_papers s; st_reviews := st_reviews s;
     st_grants := st_grants s; st_events := st_events s ++ [e] |}.

(** [bytes(papers[paperId].title).length] *)
Definition titleLength (s : State) (paperId : string) : nat :=
  String.length (title (paperAt s paperId)).

(** ** The contract's functions *)

Definition submitPaper (s : State) (env : Env) (paperId : string) (title_ : string)
    (encryptedContent_ : externalEuint32) (contentProof : bytes) : Result State :=
  require (Nat.eqb (titleLength s paperId) 0) or PaperAlreadyExists ;;
  require (FHE_isInitialized (FHE_fromExternal encryptedContent_ contentProof))
    or (InvalidCiphertext "content") ;;
  let s1 := write_paper paperId
    {| title := title_;
       encryptedContent := FHE_fromExternal encryptedContent_ contentProof;
       submitter := msg_sender env;
       paperSubmissionDate := block_timestamp env;
       reviews := [];
       aggregatedScore := FHE_zero;
       isPublished := false |} s in
  let s2 := grant (AllowThis (encryptedContent (paperAt s1 paperId))) s1 in
  let s3 := grant (MakePubliclyDecryptable (encryptedContent (paperAt s2 paperId))) s2 in
  Ok (emit (PaperSubmitted paperId (msg_sender env)) s3).

Definition submitReview (s : State) (env : Env) (paperId : string)
    (encryptedScore_ : externalEuint32) (scoreProof : bytes)
    (encryptedComments_ : string) : Result State :=
  require (Nat.ltb 0 (titleLength s paperId)) or PaperNotFound ;;
  require (FHE_isInitialized (FHE_fromExternal encryptedScore_ scoreProof))
    or (InvalidCiphertext "score") ;;
  let review :=
    {| encryptedScore := FHE_fromExternal encryptedScore_ scoreProof;
       encryptedComments := encryptedComments_;
       reviewer := msg_sender env;
       submissionDate := block_timestamp env;
       isVerified := false |} in
  let p := paperAt s paperId in
  let s1 := write_paper paperId (set_reviews (reviews p ++ [review]) p) s in
  let s2 := write_review
    (reviewKey paperId (length (reviews (paperAt s1 paperId)) - 1)) review s1 in
  let s3 := grant (AllowThis (encryptedScore review)) s2 in
  let s4 := grant (MakePubliclyDecryptable (encryptedScore review)) s3 in
  Ok (emit (ReviewSubmitted paperId (msg_sender env)) s4).

(** The loop of [aggregateScores]: [i] runs over [0 .. length - 1] and
    reads [reviews[i].encryptedScore]. *)
Definition totalScore (rs : list Review) : euint32 :=
  fold_left
    (fun total i => FHE_add total (encryptedScore (index rs i)))
    (seq 0 (length rs)) FHE_zero.

Definition aggregateScores (s : State) (paperId : string) : Result State :=
  require (Nat.ltb 0 (titleLength s paperId)) or PaperNotFound ;;
  require (Nat.ltb 0 (length (reviews (paperAt s paperId)))) or NothingToAggregate ;;
  let p := paperAt s paperId in
  let total := totalScore (reviews p) in
  let s1 := write_paper paperId (set_aggregatedScore total p) s in
  Ok (emit (ScoreAggregated paperId total) s1).

Definition publishPaper (s : State) (paperId : string) : Result State :=
  require (Nat.ltb 0 (titleLength s paperId)) or PaperNotFound ;;
  require (negb (FHE_isZero (aggregatedScore (paperAt s paperId))))
    or ScoresNotAggregated ;;
  require (negb (isPublished (paperAt s paperId))) or AlreadyPublished ;;
  let s1 := write_paper paperId (set_isPublished true (paperAt s paperId)) s in
  Ok (emit (PaperPublished paperId) s1).

Definition getPaperDetails (s : State) (paperId : string)
    : Result (string * address * uint256 * euint32 * bool) :=
  require (Nat.ltb 0 (titleLength s paperId)) or PaperNotFound ;;
  let paper := paperAt s paperId in
  Ok (title paper, submitter paper, paperSubmissionDate paper,
      aggregatedScore paper, isPublished paper).

Definition getReviewDetails (s : State) (paperId : string) (reviewIndex : nat)
    : Result (euint32 * string * address * uint256 * bool) :=
  require (Nat.ltb 0 (titleLength s paperId)) or PaperNotFound ;;
  require (Nat.ltb reviewIndex (length (reviews (paperAt s paperId))))
    or InvalidReviewIndex ;;
  let review := index (reviews (paperAt s paperId)) reviewIndex in
  Ok (encryptedScore review, encryptedComments review, reviewer review,
      submissionDate review, isVerified review).

Definition verifyReview (s : State) (paperId : string) (reviewIndex : nat)
    (abiEncodedClearScore : bytes) (decryptionProof : bytes) : Result State :=
  require (Nat.ltb 0 (titleLength s paperId)) or PaperNotFound ;;
  require (Nat.ltb reviewIndex (length (reviews (paperAt s paperId))))
    or InvalidReviewIndex ;;
  require (negb (isVerified (index (reviews (paperAt s paperId)) reviewIndex)))
    or AlreadyVerified ;;
  let cts :=
    [FHE_toBytes32 (encryptedScore (index (reviews (paperAt s paperId)) reviewIndex))] in
  require (FHE_checkSignatures cts abiEncodedClearScore decryptionProof)
    or InvalidProof ;;
  let p := paperAt s paperId in
  Ok (write_paper paperId
        (set_reviews
           (<[reviewIndex := set_isVerified true (index (reviews p) reviewIndex)]>
              (reviews p)) p) s).

Definition isAvailable : bool := true.

(** ** Transactions *)

Inductive Call :=
| SubmitPaper (paperId title_ : string) (content : externalEuint32) (proof : bytes)
| SubmitReview (paperId : string) (score : externalEuint32) (proof : bytes)
    (comments : string)
| AggregateScores (paperId : string)
| PublishPaper (paperId : string)
| VerifyReview (paperId : string) (reviewIndex : nat) (clear proof : bytes).

Definition call (s : State) (env : Env) (c : Call) : Result State :=
  match c with
  | SubmitPaper paperId t content proof => submitPaper s env paperId t content proof
  | SubmitReview paperId score proof comments =>
      submitReview s env paperId score proof comments
  | AggregateScores paperId => aggregateScores s paperId
  | PublishPaper paperId => publishPaper s paperId
  | VerifyReview paperId i clear proof => verifyReview s paperId i clear proof
  end.

(** The storage after a transaction: a revert leaves it as it was. *)
Definition commit (s : State) (r : Result State) : State :=
  match r with
  | Ok s' => s'
  | Revert _ => s
  end.

(** Whether a call committed. *)
Definition committed {A : Type} (r : Result A) : bool :=
  match r with
  | Ok _ => true
  | Revert _ => false
  end.

Definition transact (s : State) (tx : Env * Call) : State :=
  commit s (call s (fst tx) (snd tx)).

Definition run (s : State) (txs : list (Env * Call)) : State :=
  fold_left transact txs s.

(** States the contract can be in: [initial] and whatever a committed
    call makes of a reachable state. *)
Inductive reachable : State -> Prop :=
| reachable_initial : reachable initial
| reachable_call s env c s' :
    reachable s -> call s env c = Ok s' -> reachable s'.

End Contract.

(** ** Vocabulary of the properties *)

Section Vocabulary.
Context {F : FHE}.

(** The fold the aggregation loop computes, over the handles alone. *)
Definition sumHandles (hs : list euint32) : euint32 :=
  fold_left FHE_add hs FHE_zero.

Definition scores (rs : list Review) : list euint32 := map encryptedScore rs.

(** A paper exists for the contract when its title is not empty. *)
Definition paperExists (s : State) (paperId : string) : Prop :=
  0 < titleLength s paperId.

(** What identifies a review: every field but the verification flag. *)
Definition sameReview (r r' : Review) : Prop :=
  set_isVerified false r = set_isVerified false r'.

(** The review a successful [submitReview] builds. *)
Definition newReview (env : Env) (score : externalEuint32) (proof : bytes)
    (comments : string) : Review :=
  {| encryptedScore := FHE_fromExternal score proof;
     encryptedComments := comments;
     reviewer := msg_sender env;
     submissionDate := block_timestamp env;
     isVerified := false |}.

(** The record a successful [submitPaper] writes. *)
Definition newPaper (env : Env) (title_ : string) (content : externalEuint32)
    (proof : bytes) : Paper :=
  {| title := title_;
     encryptedContent := FHE_fromExternal content proof;
     submitter := msg_sender env;
     paperSubmissionDate := block_timestamp env;
     reviews := [];
     aggregatedScore := FHE_zero;
     isPublished := false |}.

(** A batch of review submissions for one paper, one transaction each. *)
Definition submissions (paperId : string)
    (l : list (Env * (externalEuint32 * bytes * string))) : list (Env * Call) :=
  map (fun x => (fst x, SubmitReview paperId (fst (fst (snd x))) (snd (fst (snd x)))
                          (snd (snd x)))) l.

(** Invariants of the reachable states.  [papers_wf]: a slot whose title
    is empty holds no review and is not published.  [aggregate_wf]: an
    existing paper's aggregate is the fresh [FHE.zero()] or the sum of a
    non-empty prefix of its reviews, and a published paper exists and
    has such a sum.  [reviews_wf]: the top-level mapping holds an
    unverified entry under the key of every review. *)
Definition papers_wf (s : State) : Prop :=
  forall paperId, titleLength s paperId = 0 ->
    reviews (paperAt s paperId) = [] /\ isPublished (paperAt s paperId) = false.

Definition summed (p : Paper) : Prop :=
  exists n, 0 < n <= length (reviews p) /\
    aggregatedScore p = sumHandles (scores (take n (reviews p))).

Definition aggregate_wf (s : State) : Prop :=
  forall paperId,
    (paperExists s paperId ->
       aggregatedScore (paperAt s paperId) = FHE_zero \/ summed (paperAt s paperId)) /\
    (isPublished (paperAt s paperId) = true -> summed (paperAt s paperId)).

Definition reviews_wf (s : State) : Prop :=
  (forall key r, st_reviews s !! key = Some r -> isVerified r = false) /\
  (forall paperId i, i < length (reviews (paperAt s paperId)) ->
     is_Some (st_reviews s !! reviewKey paperId i)).

(** The review [r0] is at [(paperId, i)], verified. *)
Definition verifiedAt (paperId : string) (i : nat) (r0 : Review) (s : State) : Prop :=
  paperExists s paperId /\
  exists r, reviews (paperAt s paperId) !! i = Some r /\
            isVerified r = true /\ sameReview r0 r.

(** [snapshots_wf]: for a paper with no more reviews than a [uint256]
    length can count, the top-level mapping holds, under the key of each
    review, the review as it was submitted. *)
Definition snapshots_wf (s : State) : Prop :=
  forall paperId,
    (N.of_nat (length (reviews (paperAt s paperId))) <= 2 ^ 256)%N ->
    forall i r, reviews (paperAt s paperId) !! i = Some r ->
      st_reviews s !! reviewKey paperId i = Some (set_isVerified false r).

(** Stages of a paper: [notAggregated] from its submission until the
    first [aggregateScores], [publishable] once it has an aggregate,
    [published] after [publishPaper]. *)
Definition notAggregated (paperId : string) (s : State) : Prop :=
  titleLength s paperId = 0 \/
  (aggregatedScore (paperAt s paperId) = FHE_zero /\
   isPublished (paperAt s paperId) = false).

Definition publishable (paperId : string) (s : State) : Prop :=
  paperExists s paperId /\
  FHE_isZero (aggregatedScore (paperAt s paperId)) = false /\
  isPublished (paperAt s paperId) = false.

Definition published (paperId : string) (s : State) : Prop :=
  paperExists s paperId /\
  FHE_isZero (aggregatedScore (paperAt s paperId)) = false /\
  isPublished (paperAt s paperId) = true.

Definition published_wf (s : State) : Prop :=
  forall paperId, isPublished (paperAt s paperId) = true -> published paperId s.

(** [keepsClearValue read]: [read] recovers, from the storage a
    committed [verifyReview] leaves, the clear value that was claimed. *)
Definition keepsClearValue (read : State -> string -> nat -> option bytes) : Prop :=
  forall s paperId i clear proof s',
    verifyReview s paperId i clear proof = Ok s' -> read s' paperId i = Some clear.

(** The clear sum of a list of handles, and the reviews a batch of
    submissions adds to an existing paper: those whose input passes
    [FHE.isInitialized]. *)
Definition clearSum (hs : list euint32) : Z :=
  fold_right Z.add 0%Z (map FHE_decrypt hs).

Fixpoint accepted (l : list (Env * (externalEuint32 * bytes * string))) : list Review :=
  match l with
  | [] => []
  | (env, (sc, pf, cm)) :: l' =>
      if FHE_isInitialized (FHE_fromExternal sc pf)
      then newReview env sc pf cm :: accepted l'
      else accepted l'
  end.

End Vocabulary.

(** ** Reference implementations of the library *)

(** [PlainFHE]: handles in the clear.  Handle [0] is the uninitialised
    one, handle [v + 1] stands for a ciphertext of [v]; arithmetic is
    that of [uint32], and an uninitialised operand counts as [0].  An
    input is accepted with the proof ["zk"], a decryption with the proof
    ["kms"] and the packed clear values of the handles. *)
Definition plain_clear (h : N) : N := N.pred h.

Definition plain_add (a b : N) : N :=
  N.succ ((plain_clear a + plain_clear b) mod 2 ^ 32).

Definition plain_fromExternal (e : N) (proof : bytes) : N :=
  if String.eqb proof "zk" then e else 0%N.

Definition plain_encode (cts : list N) : bytes :=
  fold_right (fun h acc => (uint256_packed (plain_clear h) ++ acc)%string) "" cts.

Definition plain_checkSignatures (cts : list N) (clear proof : bytes) : bool :=
  String.eqb clear (plain_encode cts) && String.eqb proof "kms".

Definition PlainFHE : FHE :=
  {| euint32 := N;
     externalEuint32 := N;
     bytes32 := N;
     FHE_uninitialized := 0%N;
     FHE_zero := 0%N;
     FHE_isZero := fun h => N.eqb h 0;
     FHE_add := plain_add;
     FHE_fromExternal := plain_fromExternal;
     FHE_isInitialized := fun h => negb (N.eqb h 0);
     FHE_toBytes32 := fun h => h;
     FHE_checkSignatures := plain_checkSignatures;
     FHE_decrypt := fun h => Z.of_N (plain_clear h) |}.

(** [TrustingFHE]: as [PlainFHE], with a proof check that accepts every
    claim.  It shows what the contract itself keeps of a verification. *)
Definition TrustingFHE : FHE :=
  {| euint32 := N;
     externalEuint32 := N;
     bytes32 := N;
     FHE_uninitialized := 0%N;
     FHE_zero := 0%N;
     FHE_isZero := fun h => N.eqb h 0;
     FHE_add := plain_add;
     FHE_fromExternal := plain_fromExternal;
     FHE_isInitialized := fun h => negb (N.eqb h 0);
     FHE_toBytes32 := fun h => h;
     FHE_checkSignatures := fun _ _ _ => true;
     FHE_decrypt := fun h => Z.of_N (plain_clear h) |}.

(** ** A scenario: paper ["p1"] with the scores 7, 8 and 9 *)

Definition alice : Env := {| msg_sender := 10%N; block_timestamp := 100%N |}.
Definition bob : Env := {| msg_sender := 11%N; block_timestamp := 101%N |}.
Definition carol : Env := {| msg_sender := 12%N; block_timestamp := 102%N |}.
Definition dave : Env := {| msg_sender := 13%N; block_timestamp := 103%N |}.

(** An encrypted input of [PlainFHE] for the clear value [v]. *)
Definition enc (v : N) : N := N.succ v.

Definition three_reviews : list (Env * (N * bytes * string)) :=
  [(bob, (enc 7, "zk", "c7")); (carol, (enc 8, "zk", "c8")); (dave, (enc 9, "zk", "c9"))].

Definition p1_submitted : list (Env * @Call PlainFHE) :=
  [(alice, @SubmitPaper PlainFHE "p1" "On sums" (enc 1) "zk")].

Definition p1_reviewed : list (Env * @Call PlainFHE) :=
  p1_submitted ++ @submissions PlainFHE "p1" three_reviews.

Definition s_submitted : @State PlainFHE := run initial p1_submitted.
Definition s_reviewed : @State PlainFHE := run initial p1_reviewed.

(** The packed clear values the oracle would return. *)
Definition clear7 : bytes := uint256_packed 7.
Definition clear9 : bytes := uint256_packed 9.

Definition s_verified : @State PlainFHE :=
  run s_reviewed [(bob, @VerifyReview PlainFHE "p1" 0 clear7 "kms")].

Definition s_aggregated : @State PlainFHE :=
  run s_reviewed [(alice, @AggregateScores PlainFHE "p1")].

Definition s_published : @State PlainFHE :=
  run s_aggregated [(alice, @PublishPaper PlainFHE "p1")].

(** The first review of ["p1"], as submitted. *)
Definition review7 : @Review PlainFHE := @newReview PlainFHE bob (enc 7) "zk" "c7".

(** The same paper and reviews over [TrustingFHE]. *)
Definition t_reviewed : @State TrustingFHE :=
  run initial
    ((alice, @SubmitPaper TrustingFHE "p1" "On sums" (enc 1) "zk")
       :: @submissions TrustingFHE "p1" three_reviews).

Definition t_verified : @State TrustingFHE :=
  run t_reviewed [(bob, @VerifyReview TrustingFHE "p1" 0 clear7 "kms")].

(** A paper submitted with an empty title, and a second submission
    under its id. *)
Definition s_untitled : @State PlainFHE :=
  run initial [(alice, @SubmitPaper PlainFHE "p1" "" (enc 1) "zk")].

Definition s_resubmitted : @State PlainFHE :=
  run s_untitled [(bob, @SubmitPaper PlainFHE "p1" "Another" (enc 2) "zk")].

(** ** Vocabulary of the logs and of the frame *)

Section Logs.
Context {F : FHE}.

(** The paper a call is about. *)
Definition target (c : Call) : string :=
  match c with
  | SubmitPaper paperId _ _ _ => paperId
  | SubmitReview paperId _ _ _ => paperId
  | AggregateScores paperId => paperId
  | PublishPaper paperId => paperId
  | VerifyReview paperId _ _ _ => paperId
  end.

(** The fields of a paper that only [submitPaper] writes. *)
Definition metadata (p : Paper) : string * euint32 * address * uint256 :=
  (title p, encryptedContent p, submitter p, paperSubmissionDate p).

(** Reading the event log. *)
Definition isReviewSubmitted (paperId : string) (e : Event) : bool :=
  match e with
  | ReviewSubmitted id _ => String.eqb id paperId
  | _ => false
  end.

Definition isPaperPublished (paperId : string) (e : Event) : bool :=
  match e with
  | PaperPublished id => String.eqb id paperId
  | _ => false
  end.

Definition countEvents (f : Event -> bool) (es : list Event) : nat :=
  length (List.filter f es).

(** The total carried by the latest [ScoreAggregated] of a paper, and
    the sender carried by its latest [PaperSubmitted]. *)
Definition lastAggregated (paperId : string) (es : list Event) : option euint32 :=
  fold_left
    (fun acc e =>
       match e with
       | ScoreAggregated id h => if String.eqb id paperId then Some h else acc
       | _ => acc
       end) es None.

Definition lastSubmitter (paperId : string) (es : list Event) : option address :=
  fold_left
    (fun acc e =>
       match e with
       | PaperSubmitted id who => if String.eqb id paperId then Some who else acc
       | _ => acc
       end) es None.

Definition grantedHandle (g : Grant) : euint32 :=
  match g with
  | AllowThis h => h
  | MakePubliclyDecryptable h => h
  end.

Definition isVerifyReview (c : Call) : bool :=
  match c with
  | VerifyReview _ _ _ _ => true
  | _ => false
  end.

(** Invariants of the reachable states that tie the logs to the
    storage.  [grants_wf]: both permissions were granted on the score
    handle of every review and on the content handle of every paper
    record, and only on handles that passed [FHE.isInitialized].
    [keys_wf]: every entry of the top-level mapping sits under the key
    of a review of some paper and is that review, unverified. *)
Definition grants_wf (s : State) : Prop :=
  (forall paperId i r, reviews (paperAt s paperId) !! i = Some r ->
     AllowThis (encryptedScore r) ∈ st_grants s /\
     MakePubliclyDecryptable (encryptedScore r) ∈ st_grants s) /\
  (forall paperId p, st_papers s !! paperId = Some p ->
     AllowThis (encryptedContent p) ∈ st_grants s /\
     MakePubliclyDecryptable (encryptedContent p) ∈ st_grants s) /\
  (forall g, g ∈ st_grants s -> FHE_isInitialized (grantedHandle g) = true).

Definition keys_wf (s : State) : Prop :=
  forall key r, st_reviews s !! key = Some r ->
    exists paperId i r',
      key = reviewKey paperId i /\
      reviews (paperAt s paperId) !! i = Some r' /\
      r = set_isVerified false r'.

End Logs.

(** * Properties *)

(** ** Reading the storage after a write *)

Section Storage.
Context {F : FHE}.

Lemma paperAt_write paperId p s other :
  paperAt (write_paper paperId p s) other =
  if decide (paperId = other) then p else paperAt s other.
Proof.
  unfold paperAt, write_paper; simpl.
  rewrite lookup_insert. by case_decide.
Qed.

Lemma paperAt_write_eq paperId p s : paperAt (write_paper paperId p s) paperId = p.
Proof. rewrite paperAt_write. by case_decide. Qed.

Lemma paperAt_write_ne paperId p s other :
  paperId <> other -> paperAt (write_paper paperId p s) other = paperAt s other.
Proof. intros. rewrite paperAt_write. by case_decide. Qed.

Lemma paperAt_write_review key r s other :
  paperAt (write_review key r s) other = paperAt s other.
Proof. reflexivity. Qed.

Lemma paperAt_grant g s other : paperAt (grant g s) other = paperAt s other.
Proof. reflexivity. Qed.

Lemma paperAt_emit e s other : paperAt (emit e s) other = paperAt s other.
Proof. reflexivity. Qed.

Lemma titleLength_write paperId p s other :
  titleLength (write_paper paperId p s) other =
  if decide (paperId = other) then String.length (title p) else titleLength s other.
Proof. unfold titleLength. rewrite paperAt_write. by case_decide. Qed.

Lemma paperAt_initial paperId : paperAt initial paperId = zeroPaper.
Proof. unfold paperAt, initial; simpl. by rewrite lookup_empty. Qed.

(** The loop over the indices computes the fold over the handles. *)
Lemma index_lookup (rs : list Review) i r : rs !! i = Some r -> index rs i = r.
Proof. unfold index. by intros ->. Qed.

Lemma index_lt (rs : list Review) i :
  i < length rs -> rs !! i = Some (index rs i).
Proof.
  intros H. apply lookup_lt_is_Some_2 in H as [r Hr].
  by rewrite (index_lookup _ _ _ Hr).
Qed.

Lemma totalScore_from (pre rs : list Review) (acc : euint32) :
  fold_left
    (fun total i => FHE_add total (encryptedScore (index (pre ++ rs) i)))
    (seq (length pre) (length rs)) acc
  = fold_left FHE_add (scores rs) acc.
Proof.
  revert pre acc. induction rs as [|r rs IH]; intros pre acc; [reflexivity|].
  cbn [length seq fold_left scores map].
  rewrite (index_lookup (pre ++ r :: rs) (length pre) r)
    by (rewrite lookup_app_r by lia; by rewrite Nat.sub_diag).
  specialize (IH (pre ++ [r]) (FHE_add acc (encryptedScore r))).
  rewrite <- app_assoc, length_app in IH. cbn [length app] in IH.
  rewrite Nat.add_1_r in IH. exact IH.
Qed.

Lemma totalScore_sumHandles rs : totalScore rs = sumHandles (scores rs).
Proof. exact (totalScore_from [] rs FHE_zero). Qed.

Lemma sumHandles_snoc hs h : sumHandles (hs ++ [h]) = FHE_add (sumHandles hs) h.
Proof. unfold sumHandles. by rewrite fold_left_app. Qed.

End Storage.

(** ** What a committed call has checked and written *)

Section Functions.
Context {F : FHE}.

Lemma submitPaper_Ok s env paperId t c pf s' :
  submitPaper s env paperId t c pf = Ok s' ->
  titleLength s paperId = 0 /\
  FHE_isInitialized (FHE_fromExternal c pf) = true /\
  (forall other, paperAt s' other =
     if decide (paperId = other) then newPaper env t c pf else paperAt s other) /\
  st_reviews s' = st_reviews s.
Proof.
  unfold submitPaper. intros H. passed. subst s'.
  split; [by apply Nat.eqb_eq|]. split; [done|]. split; [|done].
  intros other. rewrite paperAt_emit, !paperAt_grant. apply paperAt_write.
Qed.

Lemma submitReview_Ok s env paperId c pf comments s' :
  submitReview s env paperId c pf comments = Ok s' ->
  paperExists s paperId /\
  FHE_isInitialized (FHE_fromExternal c pf) = true /\
  (forall other, paperAt s' other =
     if decide (paperId = other)
     then set_reviews (reviews (paperAt s paperId) ++ [newReview env c pf comments])
            (paperAt s paperId)
     else paperAt s other) /\
  st_reviews s' =
    <[reviewKey paperId (length (reviews (paperAt s paperId))) :=
        newReview env c pf comments]> (st_reviews s).
Proof.
  unfold submitReview. intros H. passed. subst s'.
  split; [by apply Nat.ltb_lt|]. split; [done|]. split.
  - intros other. rewrite paperAt_emit, !paperAt_grant, paperAt_write_review.
    apply paperAt_write.
  - cbn. rewrite paperAt_write_eq. cbn. rewrite length_app. cbn.
    by replace (length (reviews (paperAt s paperId)) + 1 - 1)
      with (length (reviews (paperAt s paperId))) by lia.
Qed.

Lemma aggregateScores_Ok s paperId s' :
  aggregateScores s paperId = Ok s' ->
  paperExists s paperId /\
  0 < length (reviews (paperAt s paperId)) /\
  (forall other, paperAt s' other =
     if decide (paperId = other)
     then set_aggregatedScore (sumHandles (scores (reviews (paperAt s paperId))))
            (paperAt s paperId)
     else paperAt s other) /\
  st_reviews s' = st_reviews s.
Proof.
  unfold aggregateScores. intros H. passed. subst s'.
  split; [by apply Nat.ltb_lt|]. split; [by apply Nat.ltb_lt|]. split; [|done].
  intros other. rewrite paperAt_emit, totalScore_sumHandles. apply paperAt_write.
Qed.

Lemma publishPaper_Ok s paperId s' :
  publishPaper s paperId = Ok s' ->
  paperExists s paperId /\
  FHE_isZero (aggregatedScore (paperAt s paperId)) = false /\
  isPublished (paperAt s paperId) = false /\
  (forall other, paperAt s' other =
     if decide (paperId = other) then set_isPublished true (paperAt s paperId)
     else paperAt s other) /\
  st_reviews s' = st_reviews s.
Proof.
  unfold publishPaper. intros H. passed. subst s'.
  split; [by apply Nat.ltb_lt|].
  split; [by apply negb_true_iff|]. split; [by apply negb_true_iff|].
  split; [|done].
  intros other. rewrite paperAt_emit. apply paperAt_write.
Qed.

Lemma verifyReview_Ok s paperId i clear proof s' :
  verifyReview s paperId i clear proof = Ok s' ->
  paperExists s paperId /\
  exists r,
    reviews (paperAt s paperId) !! i = Some r /\
    isVerified r = false /\
    FHE_checkSignatures [FHE_toBytes32 (encryptedScore r)] clear proof = true /\
    s' = write_paper paperId
           (set_reviews (<[i := set_isVerified true r]> (reviews (paperAt s paperId)))
              (paperAt s paperId)) s.
Proof.
  unfold verifyReview. intros H. passed. subst s'.
  split; [by apply Nat.ltb_lt|].
  exists (index (reviews (paperAt s paperId)) i).
  split; [by apply index_lt, Nat.ltb_lt|].
  split; [by apply negb_true_iff|]. by split.
Qed.

(** The outcome of [verifyReview] on a review that is there. *)
Lemma verifyReview_at s paperId i r clear proof :
  paperExists s paperId ->
  reviews (paperAt s paperId) !! i = Some r ->
  verifyReview s paperId i clear proof =
    if isVerified r then Revert AlreadyVerified
    else if FHE_checkSignatures [FHE_toBytes32 (encryptedScore r)] clear proof
    then Ok (write_paper paperId
               (set_reviews (<[i := set_isVerified true r]> (reviews (paperAt s paperId)))
                  (paperAt s paperId)) s)
    else Revert InvalidProof.
Proof.
  intros Hex Hr. unfold verifyReview.
  apply Nat.ltb_lt in Hex. rewrite Hex.
  pose proof (lookup_lt_Some _ _ _ Hr) as Hlt. apply Nat.ltb_lt in Hlt. rewrite Hlt.
  rewrite (index_lookup _ _ _ Hr). by destruct (isVerified r).
Qed.

Lemma aggregateScores_nonempty s paperId :
  paperExists s paperId -> reviews (paperAt s paperId) <> [] ->
  aggregateScores s paperId =
    Ok (emit (ScoreAggregated paperId (sumHandles (scores (reviews (paperAt s paperId)))))
          (write_paper paperId
             (set_aggregatedScore (sumHandles (scores (reviews (paperAt s paperId))))
                (paperAt s paperId)) s)).
Proof.
  intros Hex Hrs. unfold aggregateScores.
  apply Nat.ltb_lt in Hex. rewrite Hex.
  destruct (reviews (paperAt s paperId)) as [|r rs] eqn:E; [done|].
  cbn [length Nat.ltb Nat.leb]. rewrite <- E. cbv zeta.
  by rewrite totalScore_sumHandles.
Qed.

Lemma submitReview_Revert s env paperId c pf comments e :
  paperExists s paperId ->
  submitReview s env paperId c pf comments = Revert e ->
  FHE_isInitialized (FHE_fromExternal c pf) = false.
Proof.
  intros Hex. unfold submitReview. apply Nat.ltb_lt in Hex. rewrite Hex.
  by destruct (FHE_isInitialized _).
Qed.

End Functions.

(** ** Invariants of the reachable states *)

Section Invariants.
Context {F : FHE}.

Lemma scores_set_isVerified (rs : list Review) i r b :
  rs !! i = Some r -> scores (<[i := set_isVerified b r]> rs) = scores rs.
Proof.
  revert i. induction rs as [|x rs IH]; intros [|i] H; try discriminate; cbn in *.
  - by injection H as ->.
  - f_equal. by apply IH.
Qed.

Lemma scores_take n (rs : list Review) : scores (take n rs) = take n (scores rs).
Proof.
  revert n. induction rs as [|x rs IH]; intros [|n]; cbn; try done.
  f_equal. apply IH.
Qed.

Lemma papers_wf_initial : papers_wf initial.
Proof. intros paperId _. by rewrite paperAt_initial. Qed.

Lemma papers_wf_call s env c s' :
  papers_wf s -> call s env c = Ok s' -> papers_wf s'.
Proof.
  intros Hwf Hc paperId. unfold titleLength.
  destruct c as [id t ct pf|id sc pf cm|id|id|id i cl pf]; cbn in Hc.
  - apply submitPaper_Ok in Hc as (_ & _ & Hp & _).
    rewrite Hp. case_decide; [done|]. apply Hwf.
  - apply submitReview_Ok in Hc as (Hex & _ & Hp & _).
    rewrite Hp. case_decide; [|apply Hwf].
    subst. cbn. unfold paperExists, titleLength in Hex. lia.
  - apply aggregateScores_Ok in Hc as (Hex & _ & Hp & _).
    rewrite Hp. case_decide; [|apply Hwf].
    subst. cbn. unfold paperExists, titleLength in Hex. lia.
  - apply publishPaper_Ok in Hc as (Hex & _ & _ & Hp & _).
    rewrite Hp. case_decide; [|apply Hwf].
    subst. cbn. unfold paperExists, titleLength in Hex. lia.
  - apply verifyReview_Ok in Hc as (Hex & r & _ & _ & _ & ->).
    rewrite paperAt_write. case_decide; [|apply Hwf].
    subst. cbn. unfold paperExists, titleLength in Hex. lia.
Qed.

Lemma reviews_wf_initial : reviews_wf initial.
Proof.
  split.
  - intros key r H. cbn in H. by rewrite lookup_empty in H.
  - intros paperId i. rewrite paperAt_initial. cbn. lia.
Qed.

Lemma reviews_wf_call s env c s' :
  reviews_wf s -> call s env c = Ok s' -> reviews_wf s'.
Proof.
  intros [Hflag Hkey] Hc.
  destruct c as [id t ct pf|id sc pf cm|id|id|id i cl pf]; cbn in Hc.
  - apply submitPaper_Ok in Hc as (_ & _ & Hp & Hr). split.
    + intros key r. rewrite Hr. apply Hflag.
    + intros paperId i. rewrite Hp, Hr. case_decide; [cbn; lia|apply Hkey].
  - apply submitReview_Ok in Hc as (_ & _ & Hp & Hr). split.
    + intros key r. rewrite Hr, lookup_insert. case_decide.
      * by intros [= <-].
      * apply Hflag.
    + intros paperId i. rewrite Hp, Hr, lookup_insert. intros Hi.
      destruct (decide (reviewKey id (length (reviews (paperAt s id)))
                        = reviewKey paperId i)) as [|Hne]; [by eexists|].
      apply Hkey.
      destruct (decide (id = paperId)) as [<-|]; [|done].
      cbn in Hi. rewrite length_app in Hi. cbn in Hi.
      destruct (decide (i = length (reviews (paperAt s id)))); [by subst|lia].
  - apply aggregateScores_Ok in Hc as (_ & _ & Hp & Hr). split.
    + intros key r. rewrite Hr. apply Hflag.
    + intros paperId i. rewrite Hp, Hr. case_decide; [subst; cbn|]; apply Hkey.
  - apply publishPaper_Ok in Hc as (_ & _ & _ & Hp & Hr). split.
    + intros key r. rewrite Hr. apply Hflag.
    + intros paperId i. rewrite Hp, Hr. case_decide; [subst; cbn|]; apply Hkey.
  - apply verifyReview_Ok in Hc as (_ & r & _ & _ & _ & ->). split.
    + intros key r'. cbn. apply Hflag.
    + intros paperId j. rewrite paperAt_write. cbn.
      case_decide; [subst; cbn; rewrite length_insert|]; apply Hkey.
Qed.

Lemma reachable_wf s : reachable s -> papers_wf s /\ reviews_wf s.
Proof.
  induction 1 as [|s env c s' _ [IHp IHr] Hc].
  - split; [apply papers_wf_initial|apply reviews_wf_initial].
  - split; [by eapply papers_wf_call|by eapply reviews_wf_call].
Qed.

(** Runs of transactions *)

Lemma run_app s txs txs' : run s (txs ++ txs') = run (run s txs) txs'.
Proof. apply fold_left_app. Qed.

Lemma run_preserves (P : State -> Prop) (Q : Call -> Prop) :
  (forall s env c s', Q c -> P s -> call s env c = Ok s' -> P s') ->
  forall txs s, Forall (fun tx => Q (snd tx)) txs -> P s -> P (run s txs).
Proof.
  intros Hstep txs. induction txs as [|[env c] txs IH]; intros s Hall HP; [done|].
  inversion Hall as [|? ? Hq Hall']; subst. cbn in Hq.
  cbn [run fold_left]. apply IH; [done|].
  unfold transact; cbn. destruct (call s env c) eqn:Hc; cbn; [|done].
  by eapply Hstep.
Qed.

Lemma run_invariant (P : State -> Prop) :
  (forall s env c s', P s -> call s env c = Ok s' -> P s') ->
  forall txs s, P s -> P (run s txs).
Proof.
  intros Hstep txs s HP.
  apply (run_preserves P (fun _ => True)); [eauto| |done].
  by apply Forall_forall.
Qed.

Lemma reachable_run s txs : reachable s -> reachable (run s txs).
Proof.
  apply run_invariant. intros. by eapply reachable_call.
Qed.

End Invariants.

(** ** Aggregation *)

Section Aggregation.
Context {F : FHE}.

(** C6.  [aggregateScores] reverts with "Paper does not exist" when the
    paper's title is empty and with "No reviews to aggregate" when the
    paper has no review.  Otherwise it commits: the paper's aggregate
    becomes [FHE.add (... (FHE.add (FHE.add FHE.zero h0) h1) ...) hn]
    over the score handles in ascending index order, replacing whatever
    aggregate was there, with nothing else written but the event.  The
    result is built from [FHE.zero] and [FHE.add] alone, for every
    implementation of the library.  Aggregating again after one more
    review gives the fold over all the reviews, the new one included. *)
Theorem aggregateScores_spec s paperId :
  (titleLength s paperId = 0 -> aggregateScores s paperId = Revert PaperNotFound) /\
  (paperExists s paperId -> reviews (paperAt s paperId) = [] ->
     aggregateScores s paperId = Revert NothingToAggregate) /\
  (paperExists s paperId -> reviews (paperAt s paperId) <> [] ->
     aggregateScores s paperId =
       Ok (emit (ScoreAggregated paperId (sumHandles (scores (reviews (paperAt s paperId)))))
             (write_paper paperId
                (set_aggregatedScore (sumHandles (scores (reviews (paperAt s paperId))))
                   (paperAt s paperId)) s))) /\
  (forall s1 env sc pf cm s2 s3,
     aggregateScores s paperId = Ok s1 ->
     submitReview s1 env paperId sc pf cm = Ok s2 ->
     aggregateScores s2 paperId = Ok s3 ->
     aggregatedScore (paperAt s3 paperId) =
       sumHandles (scores (reviews (paperAt s paperId) ++ [newReview env sc pf cm]))).
Proof.
  unfold paperExists. repeat split.
  - intros H. unfold aggregateScores. by rewrite H.
  - intros Hex Hrs. unfold aggregateScores.
    apply Nat.ltb_lt in Hex. by rewrite Hex, Hrs.
  - apply aggregateScores_nonempty.
  - intros s1 env sc pf cm s2 s3 H1 H2 H3.
    apply aggregateScores_Ok in H1 as (_ & _ & Hp1 & _).
    apply submitReview_Ok in H2 as (_ & _ & Hp2 & _).
    apply aggregateScores_Ok in H3 as (_ & _ & Hp3 & _).
    rewrite Hp3, decide_True by done. cbn.
    rewrite Hp2, decide_True by done. cbn.
    rewrite Hp1, decide_True by done. done.
Qed.

End Aggregation.

(** ** Verification of a review score *)

Section Verification.
Context {F : FHE}.

(** C4.  For a review that exists and is not verified, a clear value and
    proof the library's signature check rejects for the review's score
    handle make [verifyReview] revert at that check; the storage is what
    it was, the review still unverified. *)
Theorem verifyReview_invalid_proof s paperId i r clear proof :
  paperExists s paperId ->
  reviews (paperAt s paperId) !! i = Some r ->
  isVerified r = false ->
  FHE_checkSignatures [FHE_toBytes32 (encryptedScore r)] clear proof = false ->
  verifyReview s paperId i clear proof = Revert InvalidProof /\
  commit s (verifyReview s paperId i clear proof) = s /\
  reviews (paperAt (commit s (verifyReview s paperId i clear proof)) paperId) !! i
    = Some r.
Proof.
  intros Hex Hr Hv Hsig.
  assert (verifyReview s paperId i clear proof = Revert InvalidProof) as E.
  { by rewrite (verifyReview_at _ _ _ _ _ _ Hex Hr), Hv, Hsig. }
  rewrite E. by repeat split.
Qed.

End Verification.

Section VerifiedForGood.
Context {F : FHE}.

Lemma verifiedAt_call paperId i r0 s env c s' :
  verifiedAt paperId i r0 s -> call s env c = Ok s' -> verifiedAt paperId i r0 s'.
Proof.
  intros (Hex & r & Hr & Hv & Hsame) Hc. unfold verifiedAt, paperExists, titleLength in *.
  destruct c as [id t ct pf|id sc pf cm|id|id|id j cl pf]; cbn in Hc.
  - apply submitPaper_Ok in Hc as (Hfree & _ & Hp & _).
    rewrite Hp. case_decide; [subst; unfold titleLength in Hfree; lia|]. eauto.
  - apply submitReview_Ok in Hc as (_ & _ & Hp & _).
    rewrite Hp. case_decide; [subst; cbn|by eauto].
    split; [done|]. exists r. by rewrite lookup_app_l by (by eapply lookup_lt_Some).
  - apply aggregateScores_Ok in Hc as (_ & _ & Hp & _).
    rewrite Hp. case_decide; [subst; cbn|]; eauto.
  - apply publishPaper_Ok in Hc as (_ & _ & _ & Hp & _).
    rewrite Hp. case_decide; [subst; cbn|]; eauto.
  - apply verifyReview_Ok in Hc as (_ & r' & Hr' & Hv' & _ & ->).
    rewrite paperAt_write. case_decide; [subst; cbn|by eauto].
    split; [done|]. exists r.
    destruct (decide (j = i)) as [->|]; [congruence|].
    by rewrite list_lookup_insert_ne.
Qed.

Lemma verifiedAt_run paperId i r0 s txs :
  verifiedAt paperId i r0 s -> verifiedAt paperId i r0 (run s txs).
Proof.
  intros H. revert s H. apply run_invariant. intros. by eapply verifiedAt_call.
Qed.

Lemma verifiedAt_verifyReview paperId i clear proof s s' :
  verifyReview s paperId i clear proof = Ok s' ->
  exists r, reviews (paperAt s paperId) !! i = Some r /\ isVerified r = false /\
            verifiedAt paperId i r s'.
Proof.
  intros H. apply verifyReview_Ok in H as (Hex & r & Hr & Hv & _ & ->).
  exists r. repeat split; try done.
  - unfold paperExists, titleLength in *. by rewrite paperAt_write_eq.
  - exists (set_isVerified true r). rewrite paperAt_write_eq. cbn.
    rewrite list_lookup_insert_eq by (by eapply lookup_lt_Some). done.
Qed.

Lemma verifiedAt_reverts paperId i r0 s clear proof :
  verifiedAt paperId i r0 s ->
  verifyReview s paperId i clear proof = Revert AlreadyVerified.
Proof.
  intros (Hex & r & Hr & Hv & _).
  by rewrite (verifyReview_at _ _ _ _ _ _ Hex Hr), Hv.
Qed.

(** C1, as the contract has it.  Once [verifyReview] has committed for a
    review, every later [verifyReview] on that review, after whatever
    transactions, reverts with "Review already verified": the guard comes
    before the signature check, so the outcome is the same for every
    clear value and proof, and the storage stays as it was.  The
    outcome is a revert and carries no value. *)
Theorem verifyReview_retry_reverts s paperId i clear proof s' :
  verifyReview s paperId i clear proof = Ok s' ->
  forall txs clear' proof',
    verifyReview (run s' txs) paperId i clear' proof' = Revert AlreadyVerified /\
    commit (run s' txs) (verifyReview (run s' txs) paperId i clear' proof')
      = run s' txs.
Proof.
  intros H txs clear' proof'.
  apply verifiedAt_verifyReview in H as (r & _ & _ & H).
  apply (verifiedAt_run _ _ _ _ txs) in H.
  by rewrite (verifiedAt_reverts _ _ _ _ clear' proof' H).
Qed.

(** C2, as the contract has it.  A committed [verifyReview] found the
    review unverified and writes one thing, the review's [isVerified]
    flag, now [true]; no clear value is kept, the storage after the call
    is the same for every claimed value that passes.  From then on the
    flag stays [true] through every transaction, and no later
    [verifyReview] on the review commits: the flag goes from [false] to
    [true] once. *)
Theorem verifyReview_sets_flag_once s paperId i clear proof s' :
  verifyReview s paperId i clear proof = Ok s' ->
  (exists r,
     reviews (paperAt s paperId) !! i = Some r /\ isVerified r = false /\
     s' = write_paper paperId
            (set_reviews (<[i := set_isVerified true r]> (reviews (paperAt s paperId)))
               (paperAt s paperId)) s /\
     reviews (paperAt s' paperId) !! i = Some (set_isVerified true r)) /\
  (forall clear2 proof2 s2, verifyReview s paperId i clear2 proof2 = Ok s2 -> s2 = s') /\
  (forall txs, exists r',
     reviews (paperAt (run s' txs) paperId) !! i = Some r' /\ isVerified r' = true) /\
  (forall txs clear' proof' s'',
     verifyReview (run s' txs) paperId i clear' proof' <> Ok s'').
Proof.
  intros H. pose proof (verifiedAt_verifyReview _ _ _ _ _ _ H) as (r0 & _ & _ & Hver).
  pose proof (verifyReview_Ok _ _ _ _ _ _ H) as (Hex & r & Hr & Hv & _ & Hs').
  repeat split.
  - exists r. repeat split; try done.
    rewrite Hs', paperAt_write_eq. cbn.
    by rewrite list_lookup_insert_eq by (by eapply lookup_lt_Some).
  - intros clear2 proof2 s2 H2.
    apply verifyReview_Ok in H2 as (_ & r2 & Hr2 & _ & _ & ->).
    rewrite Hs'. congruence.
  - intros txs. destruct (verifiedAt_run _ _ _ _ txs Hver) as (_ & r' & ? & ? & _).
    by exists r'.
  - intros txs clear' proof' s'' E.
    by rewrite (verifiedAt_reverts _ _ _ _ clear' proof' (verifiedAt_run _ _ _ _ txs Hver))
      in E.
Qed.

End VerifiedForGood.

(** ** Review indices *)

Section ReviewIndices.
Context {F : FHE}.

Lemma sameReview_refl (r : Review) : sameReview r r.
Proof. done. Qed.

Lemma sameReview_set_isVerified (r : Review) b : sameReview r (set_isVerified b r).
Proof. done. Qed.

(** A committed call keeps every review of every paper at its index. *)
Lemma reviews_stay s env c s' paperId i r :
  papers_wf s -> call s env c = Ok s' ->
  reviews (paperAt s paperId) !! i = Some r ->
  exists r', reviews (paperAt s' paperId) !! i = Some r' /\ sameReview r r'.
Proof.
  intros Hwf Hc Hr.
  assert (forall rs : list Review, rs !! i = Some r ->
            exists r', rs !! i = Some r' /\ sameReview r r') as Hkeep.
  { intros rs E. exists r. split; [done|apply sameReview_refl]. }
  destruct c as [id t ct pf|id sc pf cm|id|id|id j cl pf]; cbn in Hc.
  - apply submitPaper_Ok in Hc as (Hfree & _ & Hp & _).
    rewrite Hp. case_decide; [subst|by apply Hkeep].
    apply Hwf in Hfree as [Hnil _]. by rewrite Hnil in Hr.
  - apply submitReview_Ok in Hc as (_ & _ & Hp & _).
    rewrite Hp. case_decide; [subst; cbn|by apply Hkeep].
    apply Hkeep. by rewrite lookup_app_l by (by eapply lookup_lt_Some).
  - apply aggregateScores_Ok in Hc as (_ & _ & Hp & _).
    rewrite Hp. case_decide; [subst; cbn|]; by apply Hkeep.
  - apply publishPaper_Ok in Hc as (_ & _ & _ & Hp & _).
    rewrite Hp. case_decide; [subst; cbn|]; by apply Hkeep.
  - apply verifyReview_Ok in Hc as (_ & r' & Hr' & _ & _ & ->).
    rewrite paperAt_write. case_decide; [subst; cbn|by apply Hkeep].
    destruct (decide (j = i)) as [->|].
    + exists (set_isVerified true r').
      rewrite list_lookup_insert_eq by (by eapply lookup_lt_Some).
      split; [done|]. assert (r' = r) as -> by congruence. done.
    + apply Hkeep. by rewrite list_lookup_insert_ne.
Qed.

(** C9.  [submitReview] on a paper that does not exist reverts.  A new
    paper starts with no review; a committed [submitReview] appends its
    review after the ones there, so the review takes the index equal to
    the number of reviews before it (0 for the first, one more each
    time), which is also the index in the key written to the top-level
    mapping.  The indices in use are exactly those below the number of
    reviews, and in a reachable state a committed call leaves every
    review at its index: none is moved, dropped or replaced. *)
Theorem review_indices :
  (forall s env paperId sc pf cm,
     titleLength s paperId = 0 ->
     submitReview s env paperId sc pf cm = Revert PaperNotFound) /\
  (forall s env paperId t ct pf s',
     submitPaper s env paperId t ct pf = Ok s' -> reviews (paperAt s' paperId) = []) /\
  (forall s env paperId sc pf cm s',
     submitReview s env paperId sc pf cm = Ok s' ->
     reviews (paperAt s' paperId)
       = reviews (paperAt s paperId) ++ [newReview env sc pf cm] /\
     reviews (paperAt s' paperId) !! length (reviews (paperAt s paperId))
       = Some (newReview env sc pf cm) /\
     st_reviews s' !! reviewKey paperId (length (reviews (paperAt s paperId)))
       = Some (newReview env sc pf cm)) /\
  (forall s paperId i,
     is_Some (reviews (paperAt s paperId) !! i) <-> i < length (reviews (paperAt s paperId))) /\
  (forall s env c s' paperId i r,
     reachable s -> call s env c = Ok s' ->
     reviews (paperAt s paperId) !! i = Some r ->
     exists r', reviews (paperAt s' paperId) !! i = Some r' /\ sameReview r r').
Proof.
  split; [|split; [|split; [|split]]].
  - intros s env paperId sc pf cm H. unfold submitReview. by rewrite H.
  - intros s env paperId t ct pf s' H.
    apply submitPaper_Ok in H as (_ & _ & Hp & _). by rewrite Hp, decide_True.
  - intros s env paperId sc pf cm s' H.
    apply submitReview_Ok in H as (_ & _ & Hp & Hr).
    rewrite Hp, decide_True by done. cbn. split; [done|]. split.
    + rewrite lookup_app_r by lia. by rewrite Nat.sub_diag.
    + rewrite Hr. apply lookup_insert_eq.
  - intros s paperId i. split; [apply lookup_lt_is_Some_1|apply lookup_lt_is_Some_2].
  - intros s env c s' paperId i r Hreach Hc Hr.
    apply reachable_wf in Hreach as [Hwf _]. by eapply reviews_stay.
Qed.

End ReviewIndices.

(** ** The keys of the top-level mapping *)

Section ReviewKeys.

Lemma append_length (s t : string) :
  String.length (s ++ t) = String.length s + String.length t.
Proof. induction s as [|c s IH]; simpl; [done|]. f_equal. exact IH. Qed.

Lemma append_inj_length (s1 s2 t1 t2 : string) :
  String.length s1 = String.length s2 ->
  (s1 ++ t1 = s2 ++ t2)%string -> s1 = s2 /\ t1 = t2.
Proof.
  revert s2. induction s1 as [|c s1 IH]; intros [|c' s2] Hlen H; try discriminate.
  - done.
  - cbn in Hlen, H. injection H as -> H.
    destruct (IH s2) as [-> ->]; [lia|done|done].
Qed.

Lemma be_bytes_length k n : String.length (be_bytes k n) = k.
Proof.
  revert n. induction k as [|k IH]; intros n; cbn; [done|].
  rewrite append_length, IH. cbn. lia.
Qed.

Lemma be_bytes_inj k n m :
  (n < 256 ^ N.of_nat k)%N -> (m < 256 ^ N.of_nat k)%N ->
  be_bytes k n = be_bytes k m -> n = m.
Proof.
  revert n m. induction k as [|k IH]; intros n m Hn Hm H.
  - cbn in Hn, Hm. lia.
  - cbn [be_bytes] in H.
    apply append_inj_length in H as [Hhi Hlo]; [|by rewrite !be_bytes_length].
    injection Hlo as Hlo.
    assert (n mod 256 = m mod 256)%N as Hmod.
    { rewrite <- (N_ascii_embedding (n mod 256)), <- (N_ascii_embedding (m mod 256)).
      - by rewrite Hlo.
      - by apply N.mod_lt.
      - by apply N.mod_lt. }
    rewrite Nat2N.inj_succ, N.pow_succ_r' in Hn, Hm.
    apply IH in Hhi; [|apply N.Div0.div_lt_upper_bound; lia..].
    rewrite (N.div_mod n 256), (N.div_mod m 256) by lia. by rewrite Hhi, Hmod.
Qed.

(** The packed index has a fixed width, so the key determines the paper,
    and below [2 ^ 256], the bound of a [uint256] array length, the
    index too. *)
Lemma reviewKey_inj_packed paperId paperId' i j :
  reviewKey paperId i = reviewKey paperId' j ->
  paperId = paperId' /\ uint256_packed (N.of_nat i) = uint256_packed (N.of_nat j).
Proof.
  intros H. unfold reviewKey in H.
  assert (String.length (uint256_packed (N.of_nat i)) =
          String.length (uint256_packed (N.of_nat j))) as Hpacked.
  { unfold uint256_packed. by rewrite !be_bytes_length. }
  remember (uint256_packed (N.of_nat i)) as a eqn:Ea.
  remember (uint256_packed (N.of_nat j)) as b eqn:Eb.
  assert (String.length paperId = String.length paperId') as Hlen.
  { apply (f_equal String.length) in H. rewrite !append_length in H.
    simpl in H. lia. }
  apply append_inj_length in H as [-> H]; [|done]. split; [done|].
  simpl in H. by injection H as H.
Qed.

Lemma reviewKey_inj paperId paperId' i j :
  (N.of_nat i < 2 ^ 256)%N -> (N.of_nat j < 2 ^ 256)%N ->
  reviewKey paperId i = reviewKey paperId' j -> paperId = paperId' /\ i = j.
Proof.
  intros Hi Hj H. apply reviewKey_inj_packed in H as [-> H]. split; [done|].
  unfold uint256_packed in H.
  rewrite !N.mod_small in H by exact Hi || exact Hj.
  apply be_bytes_inj in H; [by apply Nat2N.inj| |].
  - exact Hi.
  - exact Hj.
Qed.

End ReviewKeys.

(** ** The top-level mapping keeps the submitted copy *)

Section Snapshots.
Context {F : FHE}.

Lemma snapshots_wf_initial : snapshots_wf initial.
Proof. intros paperId _ i r. by rewrite paperAt_initial. Qed.

Lemma snapshots_wf_call s env c s' :
  snapshots_wf s -> call s env c = Ok s' -> snapshots_wf s'.
Proof.
  intros Hwf Hc paperId.
  destruct c as [id t ct pf|id sc pf cm|id|id|id j cl pf]; cbn in Hc.
  - apply submitPaper_Ok in Hc as (_ & _ & Hp & Hr).
    rewrite Hp, Hr. case_decide; [done|apply Hwf].
  - apply submitReview_Ok in Hc as (_ & _ & Hp & Hr).
    rewrite Hp, Hr. destruct (decide (id = paperId)) as [->|Hne]; cbn.
    + rewrite length_app. cbn. intros Hlen i r Hi.
      assert (i < length (reviews (paperAt s paperId)) + 1) as Hlt.
      { apply lookup_lt_Some in Hi. by rewrite length_app in Hi. }
      destruct (decide (i = length (reviews (paperAt s paperId)))) as [->|Hi'].
      * rewrite lookup_insert_eq. rewrite lookup_app_r in Hi by lia.
        rewrite Nat.sub_diag in Hi. by injection Hi as <-.
      * rewrite lookup_app_l in Hi by lia.
        rewrite lookup_insert_ne; [apply Hwf; [lia|done]|].
        intros E. apply reviewKey_inj in E as [_ E]; lia.
    + intros Hlen i r Hi. rewrite lookup_insert_ne; [by apply Hwf|].
      intros E. by apply reviewKey_inj_packed in E as [E _].
  - apply aggregateScores_Ok in Hc as (_ & _ & Hp & Hr).
    rewrite Hp, Hr. case_decide; [subst; cbn|]; apply Hwf.
  - apply publishPaper_Ok in Hc as (_ & _ & _ & Hp & Hr).
    rewrite Hp, Hr. case_decide; [subst; cbn|]; apply Hwf.
  - apply verifyReview_Ok in Hc as (_ & r' & Hr' & _ & _ & ->).
    rewrite paperAt_write. cbn. case_decide; [subst; cbn|apply Hwf].
    rewrite length_insert. intros Hlen i r Hi.
    destruct (decide (j = i)) as [->|].
    + rewrite list_lookup_insert_eq in Hi by (by eapply lookup_lt_Some).
      injection Hi as <-. by apply (Hwf paperId Hlen i r').
    + rewrite list_lookup_insert_ne in Hi by done. by apply Hwf.
Qed.

Lemma reachable_snapshots s : reachable s -> snapshots_wf s.
Proof.
  induction 1; [apply snapshots_wf_initial|by eapply snapshots_wf_call].
Qed.

(** C10.  [verifyReview] writes the flag inside
    [papers[paperId].reviews[reviewIndex]] and leaves the top-level
    mapping as it is.  So in every reachable state, for every verified
    review, the top-level entry under the review's key is there and
    still unverified, while [getReviewDetails] answers with the flag
    [true]; and where the paper has no more reviews than a [uint256]
    length can count, that entry is the review as it was submitted. *)
Theorem reviews_mapping_stale :
  (forall s paperId i clear proof s',
     verifyReview s paperId i clear proof = Ok s' ->
     st_reviews s' = st_reviews s /\
     exists r, reviews (paperAt s paperId) !! i = Some r /\
               reviews (paperAt s' paperId) !! i = Some (set_isVerified true r)) /\
  (forall s paperId i r,
     reachable s ->
     reviews (paperAt s paperId) !! i = Some r -> isVerified r = true ->
     (exists snap, st_reviews s !! reviewKey paperId i = Some snap /\
                   isVerified snap = false) /\
     isVerified (reviewAt s (reviewKey paperId i)) = false /\
     getReviewDetails s paperId i =
       Ok (encryptedScore r, encryptedComments r, reviewer r, submissionDate r, true) /\
     ((N.of_nat (length (reviews (paperAt s paperId))) <= 2 ^ 256)%N ->
      st_reviews s !! reviewKey paperId i = Some (set_isVerified false r))).
Proof.
  split.
  - intros s paperId i clear proof s' H.
    apply verifyReview_Ok in H as (_ & r & Hr & _ & _ & ->).
    split; [done|]. exists r. split; [done|].
    rewrite paperAt_write_eq. cbn.
    by rewrite list_lookup_insert_eq by (by eapply lookup_lt_Some).
  - intros s paperId i r Hreach Hr Hv.
    pose proof (reachable_wf _ Hreach) as [Hpw [Hflag Hkey]].
    destruct (Hkey paperId i) as [snap Hsnap]; [by eapply lookup_lt_Some|].
    split; [|split; [|split]].
    + exists snap. split; [done|]. by eapply Hflag.
    + unfold reviewAt. rewrite Hsnap. cbn. by eapply Hflag.
    + unfold getReviewDetails.
      destruct (titleLength s paperId) as [|n] eqn:Et.
      * apply Hpw in Et as [Hnil _]. by rewrite Hnil in Hr.
      * pose proof (lookup_lt_Some _ _ _ Hr) as Hlt. apply Nat.ltb_lt in Hlt.
        by rewrite Hlt, (index_lookup _ _ _ Hr), Hv.
    + intros Hlen. by apply (reachable_snapshots _ Hreach).
Qed.

End Snapshots.

(** ** Publication *)

Section Publication.
Context {F : FHE}.

(** What the contract relies on from the library: [FHE.isZero] holds of
    [FHE.zero()], and not of a handle [FHE.add] returns. *)
Hypothesis isZero_zero : FHE_isZero FHE_zero = true.
Hypothesis isZero_add : forall a b, FHE_isZero (FHE_add a b) = false.

Lemma isZero_sumHandles hs : hs <> [] -> FHE_isZero (sumHandles hs) = false.
Proof.
  destruct hs as [|h hs _] using rev_ind; [done|]. intros _.
  rewrite sumHandles_snoc. apply isZero_add.
Qed.

Lemma summed_ext (p p' : Paper) :
  aggregatedScore p' = aggregatedScore p ->
  scores (reviews p') = scores (reviews p) ->
  summed p -> summed p'.
Proof.
  intros Hagg Hsc (n & Hn & Hsum). exists n.
  assert (length (reviews p') = length (reviews p)) as Hlen.
  { unfold scores in Hsc. apply (f_equal length) in Hsc.
    by rewrite !length_map in Hsc. }
  split; [lia|]. by rewrite Hagg, Hsum, !scores_take, Hsc.
Qed.

Lemma summed_snoc (p : Paper) r :
  summed p -> summed (set_reviews (reviews p ++ [r]) p).
Proof.
  intros (n & Hn & Hsum). exists n. cbn. rewrite length_app. cbn.
  split; [lia|]. by rewrite take_app_le by lia.
Qed.

Lemma aggregate_wf_initial : aggregate_wf initial.
Proof.
  intros paperId. rewrite paperAt_initial. unfold paperExists, titleLength.
  rewrite paperAt_initial. cbn. split; [lia|done].
Qed.

Lemma aggregate_wf_call s env c s' :
  aggregate_wf s -> call s env c = Ok s' -> aggregate_wf s'.
Proof using isZero_zero.
  intros Hwf Hc paperId. unfold paperExists, titleLength.
  destruct (Hwf paperId) as [Hex Hpub]. unfold paperExists, titleLength in Hex.
  destruct c as [id t ct pf|id sc pf cm|id|id|id j cl pf]; cbn in Hc.
  - apply submitPaper_Ok in Hc as (_ & _ & Hp & _).
    rewrite Hp. case_decide; [subst; cbn|done]. split; [by left|done].
  - apply submitReview_Ok in Hc as (_ & _ & Hp & _).
    rewrite Hp. case_decide; [subst; cbn|done]. split.
    + intros H. destruct (Hex H) as [|Hs]; [by left|right]. by apply summed_snoc.
    + intros H. by apply summed_snoc, Hpub.
  - apply aggregateScores_Ok in Hc as (_ & Hlen & Hp & _).
    rewrite Hp. case_decide; [subst; cbn|done].
    assert (summed (set_aggregatedScore
                      (sumHandles (scores (reviews (paperAt s paperId))))
                      (paperAt s paperId))) as Hs.
    { exists (length (reviews (paperAt s paperId))). cbn.
      split; [lia|]. by rewrite firstn_all. }
    split; [by right|done].
  - apply publishPaper_Ok in Hc as (Hex' & Hz & _ & Hp & _).
    rewrite Hp. case_decide; [subst; cbn|done].
    assert (summed (paperAt s paperId)) as Hs.
    { destruct (Hex Hex') as [E|]; [|done]. rewrite E in Hz. congruence. }
    split; intros _; [right|]; by eapply summed_ext.
  - apply verifyReview_Ok in Hc as (_ & r & Hr & _ & _ & ->).
    rewrite paperAt_write. case_decide; [subst; cbn|done].
    assert (forall q, summed q -> q = paperAt s paperId ->
              summed (set_reviews (<[j := set_isVerified true r]> (reviews q)) q)) as Hs.
    { intros q Hq ->. eapply summed_ext; [| |exact Hq]; [done|].
      cbn. by apply scores_set_isVerified. }
    split.
    + intros H. destruct (Hex H) as [|H']; [by left|right]. by apply Hs.
    + intros H. by apply Hs; [apply Hpub|].
Qed.

Lemma reachable_aggregate_wf s : reachable s -> aggregate_wf s.
Proof using isZero_zero.
  induction 1; [apply aggregate_wf_initial|by eapply aggregate_wf_call].
Qed.

Lemma published_call paperId s env c s' :
  published paperId s -> call s env c = Ok s' -> published paperId s'.
Proof using isZero_add.
  intros (Hex & Hz & Hpub) Hc. unfold published, paperExists, titleLength in *.
  destruct c as [id t ct pf|id sc pf cm|id|id|id j cl pf]; cbn in Hc.
  - apply submitPaper_Ok in Hc as (Hfree & _ & Hp & _).
    rewrite Hp. case_decide; [subst; unfold titleLength in Hfree; lia|done].
  - apply submitReview_Ok in Hc as (_ & _ & Hp & _).
    rewrite Hp. case_decide; [subst; cbn|]; done.
  - apply aggregateScores_Ok in Hc as (_ & Hlen & Hp & _).
    rewrite Hp. case_decide; [subst; cbn|done].
    split; [done|]. split; [|done]. apply isZero_sumHandles.
    destruct (reviews (paperAt s paperId)); [cbn in Hlen; lia|done].
  - apply publishPaper_Ok in Hc as (_ & _ & _ & Hp & _).
    rewrite Hp. case_decide; [subst; cbn|]; done.
  - apply verifyReview_Ok in Hc as (_ & r & _ & _ & _ & ->).
    rewrite paperAt_write. case_decide; [subst; cbn|]; done.
Qed.

Lemma published_run paperId s txs : published paperId s -> published paperId (run s txs).
Proof using isZero_add.
  intros H. revert s H. apply run_invariant. intros. by eapply published_call.
Qed.

Lemma published_wf_call s env c s' :
  published_wf s -> call s env c = Ok s' -> published_wf s'.
Proof using isZero_add.
  intros Hwf Hc paperId Hpub.
  destruct (isPublished (paperAt s paperId)) eqn:Hold.
  - eapply published_call; [by apply Hwf|done].
  - destruct c as [id t ct pf|id sc pf cm|id|id|id j cl pf]; cbn in Hc.
    + apply submitPaper_Ok in Hc as (_ & _ & Hp & _).
      rewrite Hp in Hpub. case_decide; [subst; cbn in Hpub|]; congruence.
    + apply submitReview_Ok in Hc as (_ & _ & Hp & _).
      rewrite Hp in Hpub. case_decide; [subst; cbn in Hpub|]; congruence.
    + apply aggregateScores_Ok in Hc as (_ & _ & Hp & _).
      rewrite Hp in Hpub. case_decide; [subst; cbn in Hpub|]; congruence.
    + pose proof (publishPaper_Ok _ _ _ Hc) as (Hex & Hz & _ & Hp & _).
      unfold published, paperExists, titleLength.
      rewrite Hp in *. case_decide; [subst; cbn|congruence]. done.
    + apply verifyReview_Ok in Hc as (_ & r & _ & _ & _ & ->).
      rewrite paperAt_write in Hpub. case_decide; [subst; cbn in Hpub|]; congruence.
Qed.

Lemma reachable_published_wf s : reachable s -> published_wf s.
Proof using isZero_add.
  induction 1 as [|s env c s' _ IH Hc]; [|by eapply published_wf_call].
  intros paperId. by rewrite paperAt_initial.
Qed.

(** C5.  In every reachable state a published paper has an aggregate
    that is there ([FHE.isZero] does not hold of it) and is the
    aggregation, in index order, of a non-empty prefix of the paper's
    reviews: the reviews it had when [aggregateScores] last ran.  And a
    published paper stays published through every transaction. *)
Theorem published_has_aggregate s paperId :
  reachable s ->
  isPublished (paperAt s paperId) = true ->
  FHE_isZero (aggregatedScore (paperAt s paperId)) = false /\
  summed (paperAt s paperId) /\
  forall txs, isPublished (paperAt (run s txs) paperId) = true.
Proof using isZero_zero isZero_add.
  intros Hreach Hpub.
  pose proof (reachable_published_wf _ Hreach paperId Hpub) as Hp.
  split; [apply Hp|]. split.
  - by apply (reachable_aggregate_wf _ Hreach paperId).
  - intros txs. by pose proof (published_run _ _ txs Hp) as (_ & _ & H).
Qed.

Lemma notAggregated_call paperId s env c s' :
  c <> AggregateScores paperId ->
  notAggregated paperId s -> call s env c = Ok s' -> notAggregated paperId s'.
Proof using isZero_zero.
  intros Hc0 Hna Hc. unfold notAggregated, titleLength in *.
  destruct c as [id t ct pf|id sc pf cm|id|id|id j cl pf]; cbn in Hc.
  - apply submitPaper_Ok in Hc as (_ & _ & Hp & _).
    rewrite Hp. case_decide; [subst; cbn|done]. by right.
  - apply submitReview_Ok in Hc as (Hex & _ & Hp & _).
    rewrite Hp. case_decide; [subst; cbn|done].
    unfold paperExists, titleLength in Hex. right. destruct Hna; [lia|done].
  - apply aggregateScores_Ok in Hc as (_ & _ & Hp & _).
    rewrite Hp. case_decide; [subst|]; done.
  - apply publishPaper_Ok in Hc as (Hex & Hz & _ & Hp & _).
    rewrite Hp. case_decide; [subst; cbn|done].
    unfold paperExists, titleLength in Hex.
    destruct Hna as [|[E _]]; [lia|]. rewrite E in Hz. congruence.
  - apply verifyReview_Ok in Hc as (Hex & r & _ & _ & _ & ->).
    rewrite paperAt_write. case_decide; [subst; cbn|done].
    unfold paperExists, titleLength in Hex. right. destruct Hna; [lia|done].
Qed.

Lemma publishable_call paperId s env c s' :
  c <> PublishPaper paperId ->
  publishable paperId s -> call s env c = Ok s' -> publishable paperId s'.
Proof using isZero_add.
  intros Hc0 (Hex & Hz & Hpub) Hc. unfold publishable, paperExists, titleLength in *.
  destruct c as [id t ct pf|id sc pf cm|id|id|id j cl pf]; cbn in Hc.
  - apply submitPaper_Ok in Hc as (Hfree & _ & Hp & _).
    rewrite Hp. case_decide; [subst; unfold titleLength in Hfree; lia|done].
  - apply submitReview_Ok in Hc as (_ & _ & Hp & _).
    rewrite Hp. case_decide; [subst; cbn|]; done.
  - apply aggregateScores_Ok in Hc as (_ & Hlen & Hp & _).
    rewrite Hp. case_decide; [subst; cbn|done].
    split; [done|]. split; [|done]. apply isZero_sumHandles.
    destruct (reviews (paperAt s paperId)); [cbn in Hlen; lia|done].
  - apply publishPaper_Ok in Hc as (_ & _ & _ & Hp & _).
    rewrite Hp. case_decide; [subst|]; done.
  - apply verifyReview_Ok in Hc as (_ & r & _ & _ & _ & ->).
    rewrite paperAt_write. case_decide; [subst; cbn|]; done.
Qed.

Lemma publishPaper_notAggregated paperId s :
  paperExists s paperId -> notAggregated paperId s ->
  publishPaper s paperId = Revert ScoresNotAggregated.
Proof using isZero_zero.
  intros Hex [H|[E _]]; [unfold paperExists in Hex; lia|].
  unfold publishPaper. apply Nat.ltb_lt in Hex. by rewrite Hex, E, isZero_zero.
Qed.

Lemma publishPaper_publishable paperId s :
  publishable paperId s ->
  exists s2, publishPaper s paperId = Ok s2 /\ published paperId s2.
Proof.
  intros (Hex & Hz & Hpub). unfold publishPaper.
  pose proof Hex as Hex'. apply Nat.ltb_lt in Hex'. rewrite Hex', Hz, Hpub. cbn.
  eexists. split; [done|].
  unfold published, paperExists, titleLength.
  by rewrite paperAt_emit, paperAt_write_eq.
Qed.

Lemma publishPaper_published paperId s :
  published paperId s -> publishPaper s paperId = Revert AlreadyPublished.
Proof.
  intros (Hex & Hz & Hpub). unfold publishPaper.
  apply Nat.ltb_lt in Hex. by rewrite Hex, Hz, Hpub.
Qed.

(** C3.  After any transactions from the initial state among which
    there is no [aggregateScores] on the paper, [publishPaper] on the
    paper, if it exists, reverts with "Scores not aggregated".  Once an
    [aggregateScores] on an unpublished paper has committed, and after
    whatever transactions other than a [publishPaper] on it,
    [publishPaper] commits and the paper is published; nothing is asked
    about a verification or about the clear sum.  From then on every
    [publishPaper] on the paper reverts with "Paper already published". *)
Theorem publish_after_aggregate :
  (forall txs paperId,
     Forall (fun tx => snd tx <> AggregateScores paperId) txs ->
     paperExists (run initial txs) paperId ->
     publishPaper (run initial txs) paperId = Revert ScoresNotAggregated) /\
  (forall s paperId s1,
     isPublished (paperAt s paperId) = false ->
     aggregateScores s paperId = Ok s1 ->
     forall txs', Forall (fun tx => snd tx <> PublishPaper paperId) txs' ->
     exists s2,
       publishPaper (run s1 txs') paperId = Ok s2 /\
       isPublished (paperAt s2 paperId) = true /\
       forall txs'', publishPaper (run s2 txs'') paperId = Revert AlreadyPublished).
Proof using isZero_zero isZero_add.
  split.
  - intros txs paperId Hno Hex.
    apply publishPaper_notAggregated; [done|].
    apply (run_preserves (notAggregated paperId)
             (fun c => c <> AggregateScores paperId)); [|done|].
    + intros. by eapply notAggregated_call.
    + left. unfold titleLength. by rewrite paperAt_initial.
  - intros s paperId s1 Hunpub Hagg txs' Hno.
    assert (publishable paperId s1) as H1.
    { apply aggregateScores_Ok in Hagg as (Hex & Hlen & Hp & _).
      unfold publishable, paperExists, titleLength in *.
      rewrite Hp, decide_True by done. cbn.
      split; [done|]. split; [|done]. apply isZero_sumHandles.
      destruct (reviews (paperAt s paperId)); [cbn in Hlen; lia|done]. }
    assert (publishable paperId (run s1 txs')) as H2.
    { apply (run_preserves (publishable paperId)
               (fun c => c <> PublishPaper paperId)); [|done|done].
      intros. by eapply publishable_call. }
    destruct (publishPaper_publishable _ _ H2) as (s2 & E & H3).
    exists s2. split; [done|]. split; [apply H3|].
    intros txs''. by apply publishPaper_published, published_run.
Qed.

End Publication.

(** ** Order of the submissions *)

Section Commutativity.
Context {F : FHE}.

(** What the library promises of a sum: decrypting [FHE.zero()] gives 0
    and decrypting [FHE.add a b] the sum of the two clear values in
    [uint32] arithmetic. *)
Hypothesis decrypt_zero : FHE_decrypt FHE_zero = 0%Z.
Hypothesis decrypt_add : forall a b,
  FHE_decrypt (FHE_add a b) = ((FHE_decrypt a + FHE_decrypt b) mod 2 ^ 32)%Z.

Lemma clearSum_snoc hs h : clearSum (hs ++ [h]) = (clearSum hs + FHE_decrypt h)%Z.
Proof.
  unfold clearSum. induction hs as [|x hs IH]; cbn in *; [lia|]. rewrite IH. lia.
Qed.

Lemma clearSum_Permutation hs hs' : Permutation hs hs' -> clearSum hs = clearSum hs'.
Proof.
  unfold clearSum. induction 1; cbn in *; lia.
Qed.

Lemma decrypt_sumHandles hs :
  hs <> [] -> FHE_decrypt (sumHandles hs) = (clearSum hs mod 2 ^ 32)%Z.
Proof using decrypt_zero decrypt_add.
  induction hs as [|h hs IH] using rev_ind; [done|]. intros _.
  rewrite sumHandles_snoc, decrypt_add, clearSum_snoc.
  destruct hs as [|x hs'].
  - unfold sumHandles. cbn. by rewrite decrypt_zero.
  - rewrite IH by done. by rewrite Z.add_mod_idemp_l.
Qed.

Lemma accepted_Permutation l l' :
  Permutation l l' -> Permutation (accepted l) (accepted l').
Proof.
  induction 1 as [|[env [[sc pf] cm]] l l' _ IH
                 |[env [[sc pf] cm]] [env' [[sc' pf'] cm']] l
                 |l l' l'' _ IH1 _ IH2]; cbn.
  - done.
  - destruct (FHE_isInitialized _); [by constructor|done].
  - destruct (FHE_isInitialized (FHE_fromExternal sc pf)),
             (FHE_isInitialized (FHE_fromExternal sc' pf')); try done.
    apply perm_swap.
  - by etrans.
Qed.

Lemma run_submissions paperId l s :
  paperExists s paperId ->
  paperExists (run s (submissions paperId l)) paperId /\
  reviews (paperAt (run s (submissions paperId l)) paperId)
    = reviews (paperAt s paperId) ++ accepted l.
Proof.
  revert s. induction l as [|[env [[sc pf] cm]] l IH]; intros s Hex.
  - cbn. by rewrite app_nil_r.
  - change (run s (submissions paperId ((env, (sc, pf, cm)) :: l)))
      with (run (commit s (submitReview s env paperId sc pf cm)) (submissions paperId l)).
    cbn [accepted].
    destruct (submitReview s env paperId sc pf cm) as [s'|e] eqn:E; cbn [commit].
    + apply submitReview_Ok in E as (_ & Hinit & Hp & _). rewrite Hinit.
      assert (paperExists s' paperId) as Hex'.
      { unfold paperExists, titleLength in *. by rewrite Hp, decide_True. }
      destruct (IH s' Hex') as [H1 H2]. split; [done|].
      rewrite H2, Hp, decide_True by done. cbn. by rewrite <- app_assoc.
    + apply submitReview_Revert in E; [|done]. rewrite E. by apply IH.
Qed.

(** C7.  From a state where the paper exists, submit a batch of reviews
    in one order or in any permutation of it, one transaction each, and
    then call [aggregateScores] once: if it commits after the one order
    it commits after the other, and the two aggregates decrypt to the
    same clear sum. *)
Theorem aggregation_commutative s paperId l1 l2 :
  paperExists s paperId ->
  Permutation l1 l2 ->
  forall s1, aggregateScores (run s (submissions paperId l1)) paperId = Ok s1 ->
  exists s2,
    aggregateScores (run s (submissions paperId l2)) paperId = Ok s2 /\
    FHE_decrypt (aggregatedScore (paperAt s1 paperId))
      = FHE_decrypt (aggregatedScore (paperAt s2 paperId)).
Proof using decrypt_zero decrypt_add.
  intros Hex Hperm s1 H1.
  destruct (run_submissions paperId l1 s Hex) as [Hex1 Hr1].
  destruct (run_submissions paperId l2 s Hex) as [Hex2 Hr2].
  apply aggregateScores_Ok in H1 as (_ & Hlen & Hp1 & _).
  assert (Permutation (scores (reviews (paperAt (run s (submissions paperId l1)) paperId)))
            (scores (reviews (paperAt (run s (submissions paperId l2)) paperId)))) as HP.
  { rewrite Hr1, Hr2. apply Permutation_map, Permutation_app_head.
    by apply accepted_Permutation. }
  assert (reviews (paperAt (run s (submissions paperId l1)) paperId) <> []) as Hne1.
  { intros E. rewrite E in Hlen. cbn in Hlen. lia. }
  assert (reviews (paperAt (run s (submissions paperId l2)) paperId) <> []) as Hne2.
  { intros E. rewrite E in HP. apply Permutation_nil_r in HP.
    apply Hne1. unfold scores in HP. by apply map_eq_nil in HP. }
  eexists. split; [by apply aggregateScores_nonempty|].
  rewrite Hp1, decide_True by done.
  rewrite paperAt_emit, paperAt_write_eq. cbn.
  rewrite !decrypt_sumHandles.
  - by rewrite (clearSum_Permutation _ _ HP).
  - intros E. unfold scores in E. by apply map_eq_nil in E.
  - intros E. unfold scores in E. by apply map_eq_nil in E.
Qed.

End Commutativity.

(** ** The scenario, evaluated *)

Lemma plain_isZero_zero : @FHE_isZero PlainFHE (@FHE_zero PlainFHE) = true.
Proof. reflexivity. Qed.

Lemma plain_isZero_add (a b : @euint32 PlainFHE) :
  @FHE_isZero PlainFHE (@FHE_add PlainFHE a b) = false.
Proof. cbn. unfold plain_add. apply N.eqb_neq, N.neq_succ_0. Qed.

Lemma plain_decrypt_zero : @FHE_decrypt PlainFHE (@FHE_zero PlainFHE) = 0%Z.
Proof. reflexivity. Qed.

Lemma plain_decrypt_add (a b : @euint32 PlainFHE) :
  @FHE_decrypt PlainFHE (@FHE_add PlainFHE a b)
  = ((@FHE_decrypt PlainFHE a + @FHE_decrypt PlainFHE b) mod 2 ^ 32)%Z.
Proof.
  cbn. unfold plain_add, plain_clear. rewrite N.pred_succ.
  rewrite N2Z.inj_mod, N2Z.inj_add. reflexivity.
Qed.

Lemma transact_committed {F : FHE} (s : State) env c :
  committed (call s env c) = true -> call s env c = Ok (run s [(env, c)]).
Proof.
  cbn. unfold transact. cbn. by destruct (call s env c).
Qed.

Lemma reachable_s_reviewed : reachable s_reviewed.
Proof. apply reachable_run, reachable_initial. Qed.

Lemma reachable_s_verified : reachable s_verified.
Proof. apply reachable_run, reachable_s_reviewed. Qed.

Lemma reachable_s_published : reachable s_published.
Proof. do 2 apply reachable_run. apply reachable_s_reviewed. Qed.

Lemma s_reviewed_verifies :
  verifyReview s_reviewed "p1" 0 clear7 "kms" = Ok s_verified.
Proof. apply (transact_committed s_reviewed bob (VerifyReview "p1" 0 clear7 "kms")).
  vm_compute. reflexivity. Qed.

Lemma s_reviewed_aggregates : aggregateScores s_reviewed "p1" = Ok s_aggregated.
Proof.
  apply (transact_committed s_reviewed alice (AggregateScores "p1")).
  vm_compute. reflexivity.
Qed.

Lemma t_reviewed_verifies clear proof :
  @verifyReview TrustingFHE t_reviewed "p1" 0 clear proof
  = Ok (run t_reviewed [(bob, @VerifyReview TrustingFHE "p1" 0 clear proof)]).
Proof.
  apply (transact_committed t_reviewed bob (@VerifyReview TrustingFHE "p1" 0 clear proof)).
  reflexivity.
Qed.

(** A paper whose title is not empty cannot be submitted again. *)
Lemma submitPaper_existing {F : FHE} (s : State) env paperId t ct pf :
  paperExists s paperId ->
  submitPaper s env paperId t ct pf = Revert PaperAlreadyExists.
Proof.
  unfold paperExists, submitPaper. intros H.
  destruct (titleLength s paperId); [lia|done].
Qed.

(** Against C1 as the specification words it, on the scenario: the
    first [verifyReview] of the score 7 commits, and the same call again
    is a revert, with no value in it; it is not a committed outcome. *)
Lemma retry_is_a_revert :
  verifyReview s_reviewed "p1" 0 clear7 "kms" = Ok s_verified /\
  verifyReview s_verified "p1" 0 clear7 "kms" = Revert AlreadyVerified /\
  ~ exists out, verifyReview s_verified "p1" 0 clear7 "kms" = Ok out.
Proof.
  assert (verifyReview s_verified "p1" 0 clear7 "kms" = Revert AlreadyVerified) as E.
  { vm_compute. reflexivity. }
  split; [exact s_reviewed_verifies|]. split; [exact E|].
  intros [out H]. rewrite E in H. discriminate H.
Qed.

Lemma verifyReview_retry_reverts_witness :
  verifyReview s_reviewed "p1" 0 clear7 "kms" = Ok s_verified /\
  forall txs clear' proof',
    verifyReview (run s_verified txs) "p1" 0 clear' proof' = Revert AlreadyVerified /\
    commit (run s_verified txs) (verifyReview (run s_verified txs) "p1" 0 clear' proof')
      = run s_verified txs.
Proof.
  split; [exact s_reviewed_verifies|].
  exact (verifyReview_retry_reverts s_reviewed "p1" 0 clear7 "kms" s_verified
           s_reviewed_verifies).
Defined.

(** Against C2 as the specification words it, on the scenario over
    [TrustingFHE]: verifying the first review with the clear value 7 and
    verifying it with the clear value 9 commit to the same storage, so
    nothing read from the storage gives back the claimed value. *)
Lemma no_clear_value_kept :
  clear7 <> clear9 /\
  @verifyReview TrustingFHE t_reviewed "p1" 0 clear7 "kms" = Ok t_verified /\
  @verifyReview TrustingFHE t_reviewed "p1" 0 clear9 "kms" = Ok t_verified /\
  ~ exists read, @keepsClearValue TrustingFHE read.
Proof.
  assert (clear7 <> clear9) as Hne by (by vm_compute).
  assert (@verifyReview TrustingFHE t_reviewed "p1" 0 clear7 "kms" = Ok t_verified) as H7
    by apply t_reviewed_verifies.
  assert (@verifyReview TrustingFHE t_reviewed "p1" 0 clear9 "kms" = Ok t_verified) as H9.
  { rewrite (t_reviewed_verifies clear9 "kms"). reflexivity. }
  split; [done|]. split; [done|]. split; [done|].
  intros [read Hread]. apply Hne.
  pose proof (Hread _ _ _ _ _ _ H7) as E7.
  pose proof (Hread _ _ _ _ _ _ H9) as E9.
  rewrite E7 in E9. by injection E9.
Qed.

Lemma verifyReview_sets_flag_once_witness :
  verifyReview s_reviewed "p1" 0 clear7 "kms" = Ok s_verified /\
  (forall txs, exists r',
     reviews (paperAt (run s_verified txs) "p1") !! 0 = Some r' /\ isVerified r' = true).
Proof.
  split; [exact s_reviewed_verifies|].
  exact (proj1 (proj2 (proj2
    (verifyReview_sets_flag_once s_reviewed "p1" 0 clear7 "kms" s_verified
       s_reviewed_verifies)))).
Defined.

Lemma publish_after_aggregate_witness :
  publishPaper s_reviewed "p1" = Revert ScoresNotAggregated /\
  exists s2,
    publishPaper s_aggregated "p1" = Ok s2 /\
    isPublished (paperAt s2 "p1") = true /\
    forall txs, publishPaper (run s2 txs) "p1" = Revert AlreadyPublished.
Proof.
  destruct (@publish_after_aggregate PlainFHE plain_isZero_zero plain_isZero_add)
    as [Hbefore Hafter].
  split.
  - apply (Hbefore p1_reviewed "p1").
    + repeat (apply List.Forall_cons; [discriminate|]). apply List.Forall_nil.
    + unfold paperExists. vm_compute. lia.
  - change s_aggregated with (run s_aggregated []) at 1.
    apply (Hafter s_reviewed "p1" s_aggregated).
    + vm_compute. reflexivity.
    + exact s_reviewed_aggregates.
    + apply List.Forall_nil.
Defined.

Lemma verifyReview_invalid_proof_witness :
  verifyReview s_reviewed "p1" 0 clear9 "kms" = Revert InvalidProof /\
  commit s_reviewed (verifyReview s_reviewed "p1" 0 clear9 "kms") = s_reviewed /\
  reviews (paperAt (commit s_reviewed (verifyReview s_reviewed "p1" 0 clear9 "kms")) "p1")
    !! 0 = Some review7.
Proof.
  apply (verifyReview_invalid_proof s_reviewed "p1" 0 review7 clear9 "kms").
  - unfold paperExists. vm_compute. lia.
  - vm_compute. reflexivity.
  - reflexivity.
  - vm_compute. reflexivity.
Defined.

Lemma published_has_aggregate_witness :
  FHE_isZero (aggregatedScore (paperAt s_published "p1")) = false /\
  summed (paperAt s_published "p1") /\
  forall txs, isPublished (paperAt (run s_published txs) "p1") = true.
Proof.
  apply (@published_has_aggregate PlainFHE plain_isZero_zero plain_isZero_add
           s_published "p1" reachable_s_published).
  vm_compute. reflexivity.
Defined.

Lemma aggregateScores_spec_witness :
  @aggregateScores PlainFHE initial "p1" = Revert PaperNotFound /\
  aggregateScores s_submitted "p1" = Revert NothingToAggregate /\
  aggregateScores s_reviewed "p1" =
    Ok (emit (ScoreAggregated "p1" (sumHandles (scores (reviews (paperAt s_reviewed "p1")))))
          (write_paper "p1"
             (set_aggregatedScore (sumHandles (scores (reviews (paperAt s_reviewed "p1"))))
                (paperAt s_reviewed "p1"))
             s_reviewed)) /\
  sumHandles (scores (reviews (paperAt s_reviewed "p1"))) = enc 24.
Proof.
  split; [|split; [|split]].
  - apply (proj1 (@aggregateScores_spec PlainFHE initial "p1")). reflexivity.
  - apply (proj1 (proj2 (@aggregateScores_spec PlainFHE s_submitted "p1"))).
    + unfold paperExists. vm_compute. lia.
    + vm_compute. reflexivity.
  - apply (proj1 (proj2 (proj2 (@aggregateScores_spec PlainFHE s_reviewed "p1")))).
    + unfold paperExists. vm_compute. lia.
    + intros E. apply (f_equal (@length _)) in E. vm_compute in E. discriminate E.
  - vm_compute. reflexivity.
Defined.

Lemma aggregation_commutative_witness :
  exists s1 s2,
    aggregateScores (run s_submitted (@submissions PlainFHE "p1" three_reviews)) "p1"
      = Ok s1 /\
    aggregateScores (run s_submitted (@submissions PlainFHE "p1" (rev three_reviews))) "p1"
      = Ok s2 /\
    FHE_decrypt (aggregatedScore (paperAt s1 "p1"))
      = FHE_decrypt (aggregatedScore (paperAt s2 "p1")).
Proof.
  pose proof (transact_committed
                (run s_submitted (@submissions PlainFHE "p1" three_reviews))
                alice (AggregateScores "p1")) as H1.
  cbn [call] in H1. specialize (H1 ltac:(vm_compute; reflexivity)).
  assert (paperExists s_submitted "p1") as Hex by (unfold paperExists; vm_compute; lia).
  destruct (@aggregation_commutative PlainFHE plain_decrypt_zero plain_decrypt_add
              s_submitted "p1" three_reviews (rev three_reviews)
              Hex (Permutation_rev three_reviews) _ H1)
    as (s2 & H2 & Heq).
  eexists. exists s2. split; [exact H1|]. split; [exact H2|exact Heq].
Defined.

Lemma review_indices_witness :
  @submitReview PlainFHE initial bob "p1" (enc 7) "zk" "c7" = Revert PaperNotFound /\
  exists r', reviews (paperAt s_verified "p1") !! 0 = Some r' /\ sameReview review7 r'.
Proof.
  destruct (@review_indices PlainFHE) as (Hnone & _ & _ & _ & Hstay).
  split.
  - apply Hnone. reflexivity.
  - apply (Hstay s_reviewed bob (VerifyReview "p1" 0 clear7 "kms") s_verified "p1" 0
             review7 reachable_s_reviewed s_reviewed_verifies).
    vm_compute. reflexivity.
Defined.

Lemma reviews_mapping_stale_witness :
  st_reviews s_verified = st_reviews s_reviewed /\
  isVerified (reviewAt s_verified (reviewKey "p1" 0)) = false /\
  getReviewDetails s_verified "p1" 0
    = Ok (enc 7 : @euint32 PlainFHE, "c7", 11%N, 101%N, true) /\
  st_reviews s_verified !! reviewKey "p1" 0 = Some review7.
Proof.
  destruct (@reviews_mapping_stale PlainFHE) as [Hframe Hstale].
  destruct (Hframe s_reviewed "p1" 0 clear7 "kms" s_verified s_reviewed_verifies)
    as [Hsame _].
  destruct (Hstale s_verified "p1" 0 (set_isVerified true review7) reachable_s_verified)
    as (_ & Hflag & Hdetails & Hsnap).
  - vm_compute. reflexivity.
  - reflexivity.
  - split; [exact Hsame|]. split; [exact Hflag|]. split; [exact Hdetails|].
    apply Hsnap. apply N.leb_le. vm_compute. reflexivity.
Defined.

(** C8, at the failing input: a paper submitted with an empty title is
    stored, and a second [submitPaper] under the same id commits too and
    replaces the record. *)
Theorem empty_title_resubmitted :
  @submitPaper PlainFHE initial alice "p1" "" (enc 1) "zk" = Ok s_untitled /\
  paperAt s_untitled "p1" = @newPaper PlainFHE alice "" (enc 1) "zk" /\
  submitPaper s_untitled bob "p1" "Another" (enc 2) "zk" = Ok s_resubmitted /\
  paperAt s_resubmitted "p1" = @newPaper PlainFHE bob "Another" (enc 2) "zk".
Proof.
  split; [|split; [|split]].
  - apply (transact_committed initial alice (@SubmitPaper PlainFHE "p1" "" (enc 1) "zk")).
    reflexivity.
  - vm_compute. reflexivity.
  - apply (transact_committed s_untitled bob
             (@SubmitPaper PlainFHE "p1" "Another" (enc 2) "zk")).
    vm_compute. reflexivity.
  - vm_compute. reflexivity.
Qed.

(** * Further properties of the contract *)

(** ** Everything a committed call writes *)

Section Writes.
Context {F : FHE}.

Lemma submitPaper_writes s env paperId t c pf s' :
  submitPaper s env paperId t c pf = Ok s' ->
  s' = emit (PaperSubmitted paperId (msg_sender env))
         (grant (MakePubliclyDecryptable (FHE_fromExternal c pf))
            (grant (AllowThis (FHE_fromExternal c pf))
               (write_paper paperId (newPaper env t c pf) s))).
Proof.
  unfold submitPaper. intros H. passed. subst s'.
  by rewrite paperAt_grant, paperAt_write_eq.
Qed.

Lemma submitReview_writes s env paperId c pf cm s' :
  submitReview s env paperId c pf cm = Ok s' ->
  s' = emit (ReviewSubmitted paperId (msg_sender env))
         (grant (MakePubliclyDecryptable (FHE_fromExternal c pf))
            (grant (AllowThis (FHE_fromExternal c pf))
               (write_review
                  (reviewKey paperId (length (reviews (paperAt s paperId))))
                  (newReview env c pf cm)
                  (write_paper paperId
                     (set_reviews (reviews (paperAt s paperId) ++ [newReview env c pf cm])
                        (paperAt s paperId)) s)))).
Proof.
  unfold submitReview. intros H. passed. subst s'.
  rewrite paperAt_write_eq. cbn [reviews set_reviews]. rewrite length_app. cbn [length].
  by replace (length (reviews (paperAt s paperId)) + 1 - 1)
    with (length (reviews (paperAt s paperId))) by lia.
Qed.

Lemma aggregateScores_writes s paperId s' :
  aggregateScores s paperId = Ok s' ->
  s' = emit (ScoreAggregated paperId (sumHandles (scores (reviews (paperAt s paperId)))))
         (write_paper paperId
            (set_aggregatedScore (sumHandles (scores (reviews (paperAt s paperId))))
               (paperAt s paperId)) s).
Proof.
  unfold aggregateScores. intros H. passed. subst s'.
  by rewrite totalScore_sumHandles.
Qed.

Lemma publishPaper_writes s paperId s' :
  publishPaper s paperId = Ok s' ->
  s' = emit (PaperPublished paperId)
         (write_paper paperId (set_isPublished true (paperAt s paperId)) s).
Proof. unfold publishPaper. intros H. passed. by subst s'. Qed.

(** An existing paper has a record in the mapping. *)
Lemma paperExists_lookup s paperId :
  paperExists s paperId -> st_papers s !! paperId = Some (paperAt s paperId).
Proof.
  unfold paperExists, titleLength, paperAt.
  destruct (st_papers s !! paperId); cbn; [done|lia].
Qed.

Lemma state_eq (s s' : State) :
  st_papers s = st_papers s' -> st_reviews s = st_reviews s' ->
  st_grants s = st_grants s' -> st_events s = st_events s' -> s = s'.
Proof. destruct s, s'; cbn. by intros -> -> -> ->. Qed.

End Writes.

(** ** Frame: what a call leaves alone *)

Section Frame.
Context {F : FHE}.

(** X1.  A committed call writes to the paper it names and to nothing
    else in [papers]: every other paper slot reads the same afterwards,
    and so does every entry of [reviews] under a key of another paper. *)
Theorem other_papers_untouched s env c s' other :
  call s env c = Ok s' ->
  other <> target c ->
  paperAt s' other = paperAt s other /\
  forall i, st_reviews s' !! reviewKey other i = st_reviews s !! reviewKey other i.
Proof.
  intros Hc Hne.
  destruct c as [id t ct pf|id sc pf cm|id|id|id j cl pf]; cbn in Hc, Hne.
  - apply submitPaper_Ok in Hc as (_ & _ & Hp & Hr).
    by rewrite Hp, Hr, decide_False.
  - apply submitReview_Ok in Hc as (_ & _ & Hp & Hr).
    rewrite Hp, Hr, decide_False by done. split; [done|].
    intros i. apply lookup_insert_ne.
    intros E. by apply reviewKey_inj_packed in E as [E _].
  - apply aggregateScores_Ok in Hc as (_ & _ & Hp & Hr).
    by rewrite Hp, Hr, decide_False.
  - apply publishPaper_Ok in Hc as (_ & _ & _ & Hp & Hr).
    by rewrite Hp, Hr, decide_False.
  - apply verifyReview_Ok in Hc as (_ & r & _ & _ & _ & ->).
    by rewrite paperAt_write_ne.
Qed.

Lemma metadata_call s env c s' paperId :
  paperExists s paperId -> call s env c = Ok s' ->
  paperExists s' paperId /\ metadata (paperAt s' paperId) = metadata (paperAt s paperId).
Proof.
  intros Hex Hc. unfold paperExists, titleLength, metadata in *.
  destruct c as [id t ct pf|id sc pf cm|id|id|id j cl pf]; cbn in Hc.
  - apply submitPaper_Ok in Hc as (Hfree & _ & Hp & _).
    rewrite Hp. case_decide; [subst; unfold titleLength in Hfree; lia|done].
  - apply submitReview_Ok in Hc as (_ & _ & Hp & _).
    rewrite Hp. case_decide; [subst; cbn|]; done.
  - apply aggregateScores_Ok in Hc as (_ & _ & Hp & _).
    rewrite Hp. case_decide; [subst; cbn|]; done.
  - apply publishPaper_Ok in Hc as (_ & _ & _ & Hp & _).
    rewrite Hp. case_decide; [subst; cbn|]; done.
  - apply verifyReview_Ok in Hc as (_ & r & _ & _ & _ & ->).
    rewrite paperAt_write. case_decide; [subst; cbn|]; done.
Qed.

Lemma metadata_run s paperId txs :
  paperExists s paperId ->
  paperExists (run s txs) paperId /\
  metadata (paperAt (run s txs) paperId) = metadata (paperAt s paperId).
Proof.
  intros Hex.
  apply (run_invariant
           (fun s' => paperExists s' paperId /\
                      metadata (paperAt s' paperId) = metadata (paperAt s paperId)));
    [|done].
  intros s1 env c s2 [Hex1 Hm1] Hc.
  destruct (metadata_call _ _ _ _ _ Hex1 Hc) as [Hex2 Hm2].
  split; [done|congruence].
Qed.

(** X2.  Once a paper is stored with a title that is not empty, its
    title, content handle, submitter and submission date are fixed: no
    run of transactions changes them, and the paper keeps existing. *)
Theorem metadata_immutable s paperId txs :
  paperExists s paperId ->
  paperExists (run s txs) paperId /\
  metadata (paperAt (run s txs) paperId) = metadata (paperAt s paperId).
Proof. apply metadata_run. Qed.

End Frame.

(** ** Reading back what was submitted *)

Section ReadBack.
Context {F : FHE}.

(** X3.  After a committed [submitPaper] with a title that is not
    empty, [getPaperDetails] returns the title, the sender, the block
    time, the fresh [FHE.zero()] aggregate and [false] for published.
    After one with the empty title it reverts with "Paper does not
    exist". *)
Theorem submitPaper_getPaperDetails s env paperId t ct pf s' :
  submitPaper s env paperId t ct pf = Ok s' ->
  (t <> "" ->
   getPaperDetails s' paperId
     = Ok (t, msg_sender env, block_timestamp env, FHE_zero, false)) /\
  (t = "" -> getPaperDetails s' paperId = Revert PaperNotFound).
Proof.
  intros H. apply submitPaper_Ok in H as (_ & _ & Hp & _).
  unfold getPaperDetails, titleLength. rewrite Hp, decide_True by done. cbn.
  split; intros Ht.
  - by destruct t.
  - by subst t.
Qed.

(** X4.  After a committed [submitReview], [getReviewDetails] at the
    index equal to the number of reviews the paper had returns the
    submitted handle, comments, sender and block time, unverified; the
    next index is out of range; and every earlier index reads as
    before. *)
Theorem submitReview_getReviewDetails s env paperId sc pf cm s' :
  submitReview s env paperId sc pf cm = Ok s' ->
  getReviewDetails s' paperId (length (reviews (paperAt s paperId)))
    = Ok (FHE_fromExternal sc pf, cm, msg_sender env, block_timestamp env, false) /\
  getReviewDetails s' paperId (S (length (reviews (paperAt s paperId))))
    = Revert InvalidReviewIndex /\
  forall i, i < length (reviews (paperAt s paperId)) ->
    getReviewDetails s' paperId i = getReviewDetails s paperId i.
Proof.
  intros H. apply submitReview_Ok in H as (Hex & _ & Hp & _).
  unfold getReviewDetails, titleLength. rewrite Hp, decide_True by done.
  cbn [title reviews set_reviews].
  unfold paperExists, titleLength in Hex. apply Nat.ltb_lt in Hex. rewrite Hex.
  rewrite length_app. cbn [length].
  split; [|split].
  - assert (Nat.ltb (length (reviews (paperAt s paperId)))
              (length (reviews (paperAt s paperId)) + 1) = true) as ->
      by (apply Nat.ltb_lt; lia).
    rewrite (index_lookup _ _ (newReview env sc pf cm)); [done|].
    rewrite lookup_app_r by lia. by rewrite Nat.sub_diag.
  - assert (Nat.ltb (S (length (reviews (paperAt s paperId))))
              (length (reviews (paperAt s paperId)) + 1) = false) as ->
      by (apply Nat.ltb_ge; lia).
    done.
  - intros i Hi.
    assert (Nat.ltb i (length (reviews (paperAt s paperId)) + 1) = true) as ->
      by (apply Nat.ltb_lt; lia).
    assert (Nat.ltb i (length (reviews (paperAt s paperId))) = true) as ->
      by (by apply Nat.ltb_lt).
    cbv zeta. pose proof (index_lt _ _ Hi) as Hr.
    rewrite (index_lookup (reviews (paperAt s paperId) ++ [newReview env sc pf cm]) i
               (index (reviews (paperAt s paperId)) i)); [done|].
    by rewrite lookup_app_l.
Qed.

(** X5.  On an existing paper, [getReviewDetails] and [verifyReview]
    revert with "Invalid review index" exactly for the indices from the
    number of reviews on; [verifyReview] does so whatever the clear
    value and proof. *)
Theorem review_index_bounds s paperId i :
  paperExists s paperId ->
  (getReviewDetails s paperId i = Revert InvalidReviewIndex
     <-> length (reviews (paperAt s paperId)) <= i) /\
  (forall clear proof,
     verifyReview s paperId i clear proof = Revert InvalidReviewIndex
       <-> length (reviews (paperAt s paperId)) <= i).
Proof.
  intros Hex. unfold paperExists in Hex. apply Nat.ltb_lt in Hex.
  unfold getReviewDetails, verifyReview. rewrite Hex.
  destruct (Nat.ltb i (length (reviews (paperAt s paperId)))) eqn:E.
  - apply Nat.ltb_lt in E. split; [|intros clear proof].
    + split; [discriminate|lia].
    + split; [|lia].
      destruct (negb _); [|discriminate].
      by destruct (FHE_checkSignatures _ _ _).
  - apply Nat.ltb_ge in E. split; [|intros clear proof]; by split.
Qed.

(** X6.  A paper submitted with the empty title is stored, but no other
    function finds it: [submitReview], [aggregateScores],
    [publishPaper], [verifyReview], [getPaperDetails] and
    [getReviewDetails] on its id all revert with "Paper does not
    exist". *)
Theorem untitled_paper_unusable s env paperId ct pf s' :
  submitPaper s env paperId "" ct pf = Ok s' ->
  st_papers s' !! paperId = Some (newPaper env "" ct pf) /\
  (forall env' sc pf' cm,
     submitReview s' env' paperId sc pf' cm = Revert PaperNotFound) /\
  aggregateScores s' paperId = Revert PaperNotFound /\
  publishPaper s' paperId = Revert PaperNotFound /\
  (forall i clear proof, verifyReview s' paperId i clear proof = Revert PaperNotFound) /\
  getPaperDetails s' paperId = Revert PaperNotFound /\
  (forall i, getReviewDetails s' paperId i = Revert PaperNotFound).
Proof.
  intros H. apply submitPaper_writes in H as ->.
  split; [cbn; apply lookup_insert_eq|].
  assert (forall s0 : State, titleLength s0 paperId = 0 ->
            Nat.ltb 0 (titleLength s0 paperId) = false) as Hno
    by (by intros s0 ->).
  unfold submitReview, aggregateScores, publishPaper, verifyReview,
    getPaperDetails, getReviewDetails.
  rewrite Hno; [done|].
  unfold titleLength. by rewrite paperAt_emit, !paperAt_grant, paperAt_write_eq.
Qed.

End ReadBack.

(** ** How the calls compose *)

Section Composition.
Context {F : FHE}.

(** X7.  On an existing paper, a clear value and proof the library's
    check accepts for the score handle of an unverified review make
    [verifyReview] commit.  The call changes that review's flag and
    nothing else: the other reviews, the paper's aggregate, publication
    flag and metadata, the top-level mapping, the grants and the event
    log (no event is emitted) are as before. *)
Theorem verifyReview_commits s paperId i r clear proof :
  paperExists s paperId ->
  reviews (paperAt s paperId) !! i = Some r ->
  isVerified r = false ->
  FHE_checkSignatures [FHE_toBytes32 (encryptedScore r)] clear proof = true ->
  exists s',
    verifyReview s paperId i clear proof = Ok s' /\
    reviews (paperAt s' paperId) !! i = Some (set_isVerified true r) /\
    (forall j, j <> i ->
       reviews (paperAt s' paperId) !! j = reviews (paperAt s paperId) !! j) /\
    length (reviews (paperAt s' paperId)) = length (reviews (paperAt s paperId)) /\
    aggregatedScore (paperAt s' paperId) = aggregatedScore (paperAt s paperId) /\
    isPublished (paperAt s' paperId) = isPublished (paperAt s paperId) /\
    metadata (paperAt s' paperId) = metadata (paperAt s paperId) /\
    st_reviews s' = st_reviews s /\
    st_grants s' = st_grants s /\
    st_events s' = st_events s.
Proof.
  intros Hex Hr Hv Hsig. eexists. split.
  - by rewrite (verifyReview_at _ _ _ _ _ _ Hex Hr), Hv, Hsig.
  - rewrite paperAt_write_eq. cbn.
    split; [by rewrite list_lookup_insert_eq by (by eapply lookup_lt_Some)|].
    split; [intros j Hj; by rewrite list_lookup_insert_ne|].
    split; [by rewrite length_insert|]. done.
Qed.

(** X8.  Verification and aggregation commute: verifying a review and
    then aggregating a paper (the same or another) commits to the same
    storage, grants and event log as aggregating first and verifying
    after.  The aggregate does not depend on the verification flags. *)
Theorem verify_aggregate_commute s paperId i clear proof paperId' s1 s2 :
  verifyReview s paperId i clear proof = Ok s1 ->
  aggregateScores s1 paperId' = Ok s2 ->
  exists s1',
    aggregateScores s paperId' = Ok s1' /\
    verifyReview s1' paperId i clear proof = Ok s2.
Proof.
  intros Hv Ha.
  pose proof (verifyReview_Ok _ _ _ _ _ _ Hv) as (Hex & r & Hr & Hflag & Hsig & Hs1).
  pose proof (aggregateScores_Ok _ _ _ Ha) as (Hex' & Hlen' & _).
  apply aggregateScores_writes in Ha.
  assert (paperExists s paperId' /\
          length (reviews (paperAt s1 paperId')) = length (reviews (paperAt s paperId')) /\
          scores (reviews (paperAt s1 paperId')) = scores (reviews (paperAt s paperId')))
    as (Hex0 & Hlen0 & Hsc0).
  { unfold paperExists, titleLength in *. rewrite Hs1 in *.
    rewrite paperAt_write in *. case_decide; [subst; cbn in *|done].
    split; [done|]. split; [by rewrite length_insert|].
    by apply scores_set_isVerified. }
  assert (reviews (paperAt s paperId') <> []) as Hne.
  { intros E. rewrite Hlen0, E in Hlen'. cbn in Hlen'. lia. }
  eexists. split; [by apply aggregateScores_nonempty|].
  assert (paperExists
            (emit (ScoreAggregated paperId'
                     (sumHandles (scores (reviews (paperAt s paperId')))))
               (write_paper paperId'
                  (set_aggregatedScore
                     (sumHandles (scores (reviews (paperAt s paperId'))))
                     (paperAt s paperId')) s)) paperId) as Hex1.
  { unfold paperExists, titleLength in *. rewrite paperAt_emit, paperAt_write.
    case_decide; [subst; cbn|]; done. }
  assert (reviews (paperAt
            (emit (ScoreAggregated paperId'
                     (sumHandles (scores (reviews (paperAt s paperId')))))
               (write_paper paperId'
                  (set_aggregatedScore
                     (sumHandles (scores (reviews (paperAt s paperId'))))
                     (paperAt s paperId')) s)) paperId) !! i = Some r) as Hr1.
  { rewrite paperAt_emit, paperAt_write. case_decide; [subst; cbn|]; done. }
  rewrite (verifyReview_at _ _ _ _ _ _ Hex1 Hr1), Hflag, Hsig. f_equal.
  rewrite Ha, Hsc0, Hs1. rewrite !paperAt_emit, !paperAt_write.
  apply state_eq; cbn; try done.
  destruct (decide (paperId = paperId')) as [<-|Hne'].
  - rewrite !decide_True by done. cbn. by rewrite !insert_insert_eq.
  - rewrite !decide_False by done. by apply insert_insert_ne.
Qed.

(** X9.  Aggregating twice in a row is aggregating once, as far as the
    storage goes: the second call commits, leaves [papers] as the first
    left it, and emits the same [ScoreAggregated] event again. *)
Theorem aggregateScores_idempotent s paperId s1 :
  aggregateScores s paperId = Ok s1 ->
  exists s2,
    aggregateScores s1 paperId = Ok s2 /\
    st_papers s2 = st_papers s1 /\
    st_reviews s2 = st_reviews s1 /\
    st_grants s2 = st_grants s1 /\
    st_events s2 =
      st_events s1 ++ [ScoreAggregated paperId (aggregatedScore (paperAt s1 paperId))].
Proof.
  intros H1.
  pose proof (aggregateScores_Ok _ _ _ H1) as (Hex & Hlen & Hp & _).
  apply aggregateScores_writes in H1.
  assert (paperExists s1 paperId) as Hex1.
  { unfold paperExists, titleLength in *. by rewrite Hp, decide_True. }
  assert (reviews (paperAt s1 paperId) = reviews (paperAt s paperId)) as Hrs
    by (by rewrite Hp, decide_True).
  assert (reviews (paperAt s1 paperId) <> []) as Hne.
  { rewrite Hrs. intros E. rewrite E in Hlen. cbn in Hlen. lia. }
  eexists. split; [by apply aggregateScores_nonempty|].
  rewrite Hrs. cbn. split; [|split; [done|split; [done|]]].
  - rewrite H1. cbn. rewrite paperAt_emit, paperAt_write_eq. cbn.
    by rewrite insert_insert_eq.
  - by rewrite Hp, decide_True.
Qed.

(** X10.  Publication does not close a paper.  On a published paper a
    [submitReview] with a valid input still commits; the paper stays
    published and its aggregate stays what it was, without the new
    score.  A following [aggregateScores] commits and replaces the
    aggregate by the sum over all the reviews, the new one included. *)
Theorem published_paper_still_open s env paperId sc pf cm :
  paperExists s paperId ->
  isPublished (paperAt s paperId) = true ->
  FHE_isInitialized (FHE_fromExternal sc pf) = true ->
  exists s1 s2,
    submitReview s env paperId sc pf cm = Ok s1 /\
    isPublished (paperAt s1 paperId) = true /\
    aggregatedScore (paperAt s1 paperId) = aggregatedScore (paperAt s paperId) /\
    reviews (paperAt s1 paperId) = reviews (paperAt s paperId) ++ [newReview env sc pf cm] /\
    aggregateScores s1 paperId = Ok s2 /\
    isPublished (paperAt s2 paperId) = true /\
    aggregatedScore (paperAt s2 paperId) =
      FHE_add (sumHandles (scores (reviews (paperAt s paperId))))
        (FHE_fromExternal sc pf).
Proof.
  intros Hex Hpub Hinit.
  destruct (submitReview s env paperId sc pf cm) as [s1|e] eqn:E1.
  - pose proof (submitReview_Ok _ _ _ _ _ _ _ E1) as (_ & _ & Hp & _).
    assert (paperExists s1 paperId) as Hex1.
    { unfold paperExists, titleLength in *. by rewrite Hp, decide_True. }
    assert (reviews (paperAt s1 paperId)
            = reviews (paperAt s paperId) ++ [newReview env sc pf cm]) as Hrs
      by (by rewrite Hp, decide_True).
    assert (reviews (paperAt s1 paperId) <> []) as Hne.
    { rewrite Hrs. by destruct (reviews (paperAt s paperId)). }
    eexists s1, _. split; [done|].
    split; [by rewrite Hp, decide_True|]. split; [by rewrite Hp, decide_True|].
    split; [done|]. split; [by apply aggregateScores_nonempty|].
    rewrite paperAt_emit, paperAt_write_eq. cbn.
    split; [by rewrite Hp, decide_True|].
    rewrite Hrs. unfold scores. rewrite map_app. cbn.
    by rewrite sumHandles_snoc.
  - apply submitReview_Revert in E1; [congruence|done].
Qed.

End Composition.

(** ** The event log and the grants against the storage *)

Section LogInvariants.
Context {F : FHE}.

Lemma countEvents_snoc f es e :
  countEvents f (es ++ [e]) = countEvents f es + (if f e then 1 else 0).
Proof.
  unfold countEvents. rewrite List.filter_app, length_app. cbn.
  by destruct (f e).
Qed.

Lemma isReviewSubmitted_eqb paperId id who :
  isReviewSubmitted paperId (ReviewSubmitted id who)
  = if decide (id = paperId) then true else false.
Proof.
  cbn. case_decide; [subst; apply String.eqb_refl|by apply String.eqb_neq].
Qed.

Lemma eqb_decide (a b : string) :
  String.eqb a b = if decide (a = b) then true else false.
Proof. case_decide; [subst; apply String.eqb_refl|by apply String.eqb_neq]. Qed.

(** X11.  In every reachable state the number of [ReviewSubmitted]
    events logged for a paper is the number of reviews the paper
    holds. *)
Theorem review_events_count s paperId :
  reachable s ->
  countEvents (isReviewSubmitted paperId) (st_events s)
    = length (reviews (paperAt s paperId)).
Proof.
  induction 1 as [|s env c s' Hreach IH Hc].
  - by rewrite paperAt_initial.
  - pose proof (reachable_wf _ Hreach) as [Hwf _].
    destruct c as [id t ct pf|id sc pf cm|id|id|id j cl pf]; cbn in Hc.
    + pose proof (submitPaper_Ok _ _ _ _ _ _ _ Hc) as (Hfree & _ & Hp & _).
      apply submitPaper_writes in Hc as ->. cbn [st_events emit grant write_paper].
      rewrite countEvents_snoc, IH, Hp. cbn.
      case_decide; [subst; cbn|lia].
      apply Hwf in Hfree as [-> _]. done.
    + pose proof (submitReview_Ok _ _ _ _ _ _ _ Hc) as (_ & _ & Hp & _).
      apply submitReview_writes in Hc as ->.
      cbn [st_events emit grant write_paper write_review].
      rewrite countEvents_snoc, IH, Hp, isReviewSubmitted_eqb.
      case_decide; [subst; cbn; by rewrite length_app|lia].
    + pose proof (aggregateScores_Ok _ _ _ Hc) as (_ & _ & Hp & _).
      apply aggregateScores_writes in Hc as ->. cbn [st_events emit write_paper].
      rewrite countEvents_snoc, IH, Hp. cbn. case_decide; [subst; cbn|]; lia.
    + pose proof (publishPaper_Ok _ _ _ Hc) as (_ & _ & _ & Hp & _).
      apply publishPaper_writes in Hc as ->. cbn [st_events emit write_paper].
      rewrite countEvents_snoc, IH, Hp. cbn. case_decide; [subst; cbn|]; lia.
    + apply verifyReview_Ok in Hc as (_ & r & _ & _ & _ & ->).
      cbn [st_events write_paper]. rewrite IH, paperAt_write.
      case_decide; [subst; cbn; by rewrite length_insert|done].
Qed.

(** X12.  In every reachable state a paper has one [PaperPublished]
    event in the log if it is published and none if it is not: the
    event is emitted once per paper at most. *)
Theorem published_event_once s paperId :
  reachable s ->
  countEvents (isPaperPublished paperId) (st_events s)
    = if isPublished (paperAt s paperId) then 1 else 0.
Proof.
  induction 1 as [|s env c s' Hreach IH Hc].
  - by rewrite paperAt_initial.
  - pose proof (reachable_wf _ Hreach) as [Hwf _].
    destruct c as [id t ct pf|id sc pf cm|id|id|id j cl pf]; cbn in Hc.
    + pose proof (submitPaper_Ok _ _ _ _ _ _ _ Hc) as (Hfree & _ & Hp & _).
      apply submitPaper_writes in Hc as ->. cbn [st_events emit grant write_paper].
      rewrite countEvents_snoc, IH, Hp. cbn.
      case_decide; [subst; cbn|lia].
      apply Hwf in Hfree as [_ ->]. done.
    + pose proof (submitReview_Ok _ _ _ _ _ _ _ Hc) as (_ & _ & Hp & _).
      apply submitReview_writes in Hc as ->.
      cbn [st_events emit grant write_paper write_review].
      rewrite countEvents_snoc, IH, Hp. cbn. case_decide; [subst; cbn|]; lia.
    + pose proof (aggregateScores_Ok _ _ _ Hc) as (_ & _ & Hp & _).
      apply aggregateScores_writes in Hc as ->. cbn [st_events emit write_paper].
      rewrite countEvents_snoc, IH, Hp. cbn. case_decide; [subst; cbn|]; lia.
    + pose proof (publishPaper_Ok _ _ _ Hc) as (_ & _ & Hunpub & Hp & _).
      apply publishPaper_writes in Hc as ->. cbn [st_events emit write_paper].
      rewrite countEvents_snoc, IH, Hp. cbn [isPaperPublished].
      rewrite eqb_decide. case_decide; [subst; cbn; by rewrite Hunpub|lia].
    + apply verifyReview_Ok in Hc as (_ & r & _ & _ & _ & ->).
      cbn [st_events write_paper]. rewrite IH, paperAt_write.
      case_decide; [subst; cbn|]; done.
Qed.

Lemma lastAggregated_snoc paperId es e :
  lastAggregated paperId (es ++ [e]) =
  match e with
  | ScoreAggregated id h =>
      if decide (id = paperId) then Some h else lastAggregated paperId es
  | _ => lastAggregated paperId es
  end.
Proof.
  unfold lastAggregated. rewrite fold_left_app. cbn.
  destruct e; try done. rewrite eqb_decide. by case_decide.
Qed.

Lemma lastSubmitter_snoc paperId es e :
  lastSubmitter paperId (es ++ [e]) =
  match e with
  | PaperSubmitted id who =>
      if decide (id = paperId) then Some who else lastSubmitter paperId es
  | _ => lastSubmitter paperId es
  end.
Proof.
  unfold lastSubmitter. rewrite fold_left_app. cbn.
  destruct e; try done. rewrite eqb_decide. by case_decide.
Qed.

(** X13.  In every reachable state the log and the aggregate agree:
    if the latest [ScoreAggregated] event of a paper carries [h], the
    paper exists and its stored aggregate is [h]; if the paper exists
    and has no such event, its aggregate is the [FHE.zero()] it was
    submitted with. *)
Theorem aggregate_event_matches s paperId :
  reachable s ->
  match lastAggregated paperId (st_events s) with
  | Some h => paperExists s paperId /\ aggregatedScore (paperAt s paperId) = h
  | None => paperExists s paperId -> aggregatedScore (paperAt s paperId) = FHE_zero
  end.
Proof.
  induction 1 as [|s env c s' Hreach IH Hc].
  - cbn. unfold paperExists, titleLength. rewrite paperAt_initial. cbn. lia.
  - unfold paperExists, titleLength in *.
    destruct c as [id t ct pf|id sc pf cm|id|id|id j cl pf]; cbn in Hc.
    + pose proof (submitPaper_Ok _ _ _ _ _ _ _ Hc) as (Hfree & _ & Hp & _).
      apply submitPaper_writes in Hc as ->. cbn [st_events emit grant write_paper].
      rewrite lastAggregated_snoc, Hp.
      case_decide; [subst; cbn|done].
      unfold titleLength in Hfree.
      destruct (lastAggregated paperId (st_events s)); [lia|done].
    + pose proof (submitReview_Ok _ _ _ _ _ _ _ Hc) as (_ & _ & Hp & _).
      apply submitReview_writes in Hc as ->.
      cbn [st_events emit grant write_paper write_review].
      rewrite lastAggregated_snoc, Hp. case_decide; [subst; cbn|]; done.
    + pose proof (aggregateScores_Ok _ _ _ Hc) as (Hex & _ & Hp & _).
      apply aggregateScores_writes in Hc as ->. cbn [st_events emit write_paper].
      rewrite lastAggregated_snoc, Hp. case_decide; [subst; cbn|]; done.
    + pose proof (publishPaper_Ok _ _ _ Hc) as (_ & _ & _ & Hp & _).
      apply publishPaper_writes in Hc as ->. cbn [st_events emit write_paper].
      rewrite lastAggregated_snoc, Hp. case_decide; [subst; cbn|]; done.
    + apply verifyReview_Ok in Hc as (_ & r & _ & _ & _ & ->).
      cbn [st_events write_paper]. rewrite paperAt_write.
      case_decide; [subst; cbn|]; done.
Qed.

(** X14.  In every reachable state the paper records are those the log
    announces: an id has a record in [papers] exactly when a
    [PaperSubmitted] event was logged for it, and the record's submitter
    is the sender of the latest such event. *)
Theorem submitted_event_matches s paperId :
  reachable s ->
  lastSubmitter paperId (st_events s) = submitter <$> (st_papers s !! paperId).
Proof.
  induction 1 as [|s env c s' Hreach IH Hc].
  - cbn. by rewrite lookup_empty.
  - assert (forall id (f : Paper -> Paper),
              paperExists s id -> (forall p, submitter (f p) = submitter p) ->
              submitter <$> (<[id := f (paperAt s id)]> (st_papers s) !! paperId)
              = submitter <$> (st_papers s !! paperId)) as Hkeep.
    { intros id f Hex Hf. rewrite lookup_insert. case_decide; [subst|done].
      rewrite (paperExists_lookup _ _ Hex). cbn. by rewrite Hf. }
    destruct c as [id t ct pf|id sc pf cm|id|id|id j cl pf]; cbn in Hc.
    + apply submitPaper_writes in Hc as ->.
      cbn [st_events st_papers emit grant write_paper].
      rewrite lastSubmitter_snoc, lookup_insert. by case_decide.
    + pose proof (submitReview_Ok _ _ _ _ _ _ _ Hc) as (Hex & _).
      apply submitReview_writes in Hc as ->.
      cbn [st_events st_papers emit grant write_paper write_review].
      rewrite lastSubmitter_snoc, IH. symmetry.
      by apply (Hkeep id (set_reviews _)).
    + pose proof (aggregateScores_Ok _ _ _ Hc) as (Hex & _).
      apply aggregateScores_writes in Hc as ->.
      cbn [st_events st_papers emit write_paper].
      rewrite lastSubmitter_snoc, IH. symmetry.
      by apply (Hkeep id (set_aggregatedScore _)).
    + pose proof (publishPaper_Ok _ _ _ Hc) as (Hex & _).
      apply publishPaper_writes in Hc as ->.
      cbn [st_events st_papers emit write_paper].
      rewrite lastSubmitter_snoc, IH. symmetry.
      by apply (Hkeep id (set_isPublished true)).
    + apply verifyReview_Ok in Hc as (Hex & r & _ & _ & _ & ->).
      cbn [st_events st_papers write_paper]. rewrite IH. symmetry.
      by apply (Hkeep id (set_reviews _)).
Qed.

(** X15.  The logs only grow.  A committed call appends exactly one
    event to the log ([verifyReview]: none) and removes nothing from
    the log or from the grants; so after any run of transactions the
    earlier log and grants are a prefix of the later ones. *)
Theorem logs_append_only :
  (forall s env c s',
     call s env c = Ok s' ->
     (exists es, st_events s' = st_events s ++ es /\
                 length es = if isVerifyReview c then 0 else 1) /\
     (exists gs, st_grants s' = st_grants s ++ gs)) /\
  (forall s txs,
     (exists es, st_events (run s txs) = st_events s ++ es) /\
     (exists gs, st_grants (run s txs) = st_grants s ++ gs)).
Proof.
  assert (forall s env c s',
     call s env c = Ok s' ->
     (exists es, st_events s' = st_events s ++ es /\
                 length es = if isVerifyReview c then 0 else 1) /\
     (exists gs, st_grants s' = st_grants s ++ gs)) as Hstep.
  { intros s env c s' Hc.
    destruct c as [id t ct pf|id sc pf cm|id|id|id j cl pf]; cbn in Hc.
    - apply submitPaper_writes in Hc as ->. cbn. split; [by eexists [_]|].
      eexists [_; _]. by rewrite <- app_assoc.
    - apply submitReview_writes in Hc as ->. cbn. split; [by eexists [_]|].
      eexists [_; _]. by rewrite <- app_assoc.
    - apply aggregateScores_writes in Hc as ->. cbn. split; [by eexists [_]|].
      exists []. by rewrite app_nil_r.
    - apply publishPaper_writes in Hc as ->. cbn. split; [by eexists [_]|].
      exists []. by rewrite app_nil_r.
    - apply verifyReview_Ok in Hc as (_ & r & _ & _ & _ & ->). cbn.
      split; exists []; by rewrite app_nil_r. }
  split; [exact Hstep|].
  intros s txs.
  apply (run_invariant
           (fun s' => (exists es, st_events s' = st_events s ++ es) /\
                      (exists gs, st_grants s' = st_grants s ++ gs))).
  - intros s1 env c s2 [[es Hes] [gs Hgs]] Hc.
    destruct (Hstep _ _ _ _ Hc) as [(es' & Hes' & _) (gs' & Hgs')].
    split.
    + exists (es ++ es'). by rewrite Hes', Hes, app_assoc.
    + exists (gs ++ gs'). by rewrite Hgs', Hgs, app_assoc.
  - split; exists []; by rewrite app_nil_r.
Qed.

End LogInvariants.

Section GrantsAndKeys.
Context {F : FHE}.

Lemma elem_of_snoc2 {A : Type} (l : list A) a b x :
  x ∈ l \/ x = a \/ x = b -> x ∈ (l ++ [a]) ++ [b].
Proof.
  rewrite !elem_of_app, !list_elem_of_singleton. tauto.
Qed.

Lemma grants_wf_initial : grants_wf initial.
Proof.
  split; [|split].
  - intros paperId i r. by rewrite paperAt_initial.
  - intros paperId p H. cbn in H. by rewrite lookup_empty in H.
  - intros g H. cbn in H. by apply elem_of_nil in H.
Qed.

Lemma grants_wf_call s env c s' :
  grants_wf s -> call s env c = Ok s' -> grants_wf s'.
Proof.
  intros (Hrev & Hpap & Hinit) Hc.
  assert (forall id q pid p,
            paperExists s id -> <[id := q]> (st_papers s) !! pid = Some p ->
            encryptedContent q = encryptedContent (paperAt s id) ->
            AllowThis (encryptedContent p) ∈ st_grants s /\
            MakePubliclyDecryptable (encryptedContent p) ∈ st_grants s) as Hkeep.
  { intros id q pid p Hex Hl Hq. rewrite lookup_insert in Hl.
    destruct (decide (id = pid)) as [<-|]; [|by apply (Hpap pid)].
    injection Hl as <-. rewrite Hq. apply (Hpap id). by apply paperExists_lookup. }
  destruct c as [id t ct pf|id sc pf cm|id|id|id j cl pf]; cbn in Hc.
  - pose proof (submitPaper_Ok _ _ _ _ _ _ _ Hc) as (_ & Hok & Hp & _).
    apply submitPaper_writes in Hc as ->.
    split; [|split]; cbn [st_grants st_papers emit grant write_paper].
    + intros paperId i r. rewrite Hp. case_decide; [done|].
      intros Hl. destruct (Hrev _ _ _ Hl). split; apply elem_of_snoc2; auto.
    + intros paperId p. rewrite lookup_insert. case_decide.
      * intros [= <-]. cbn. split; apply elem_of_snoc2; auto.
      * intros Hl. destruct (Hpap _ _ Hl). split; apply elem_of_snoc2; auto.
    + intros g. rewrite !elem_of_app, !list_elem_of_singleton.
      intros [[Hl| ->]| ->]; [by apply Hinit|exact Hok|exact Hok].
  - pose proof (submitReview_Ok _ _ _ _ _ _ _ Hc) as (Hex & Hok & Hp & _).
    apply submitReview_writes in Hc as ->.
    split; [|split]; cbn [st_grants st_papers emit grant write_paper write_review].
    + intros paperId i r. rewrite Hp. case_decide; [subst; cbn|].
      * intros Hl. apply lookup_app_Some in Hl as [Hl|[_ Hl]].
        -- destruct (Hrev _ _ _ Hl). split; apply elem_of_snoc2; auto.
        -- apply list_lookup_singleton_Some in Hl as [_ <-]. cbn. split; apply elem_of_snoc2; auto.
      * intros Hl. destruct (Hrev _ _ _ Hl). split; apply elem_of_snoc2; auto.
    + intros paperId p Hl.
      destruct (Hkeep _ _ _ _ Hex Hl eq_refl) as [? ?]. split; apply elem_of_snoc2; auto.
    + intros g. rewrite !elem_of_app, !list_elem_of_singleton.
      intros [[Hl| ->]| ->]; [by apply Hinit|exact Hok|exact Hok].
  - pose proof (aggregateScores_Ok _ _ _ Hc) as (Hex & _ & Hp & _).
    apply aggregateScores_writes in Hc as ->.
    split; [|split]; cbn [st_grants st_papers emit grant write_paper].
    + intros paperId i r. rewrite Hp. case_decide; [subst; cbn|]; apply Hrev.
    + intros paperId p Hl.
      by apply (Hkeep _ _ _ _ Hex Hl eq_refl).
    + done.
  - pose proof (publishPaper_Ok _ _ _ Hc) as (Hex & _ & _ & Hp & _).
    apply publishPaper_writes in Hc as ->.
    split; [|split]; cbn [st_grants st_papers emit grant write_paper].
    + intros paperId i r. rewrite Hp. case_decide; [subst; cbn|]; apply Hrev.
    + intros paperId p Hl.
      by apply (Hkeep _ _ _ _ Hex Hl eq_refl).
    + done.
  - apply verifyReview_Ok in Hc as (Hex & r & Hr & _ & _ & ->).
    split; [|split]; cbn [st_grants st_papers write_paper].
    + intros paperId i r'. rewrite paperAt_write. case_decide; [subst; cbn|apply Hrev].
      destruct (decide (j = i)) as [->|].
      * rewrite list_lookup_insert_eq by (by eapply lookup_lt_Some).
        intros [= <-]. cbn. by apply (Hrev paperId i).
      * rewrite list_lookup_insert_ne by done. apply Hrev.
    + intros paperId p Hl.
      by apply (Hkeep _ _ _ _ Hex Hl eq_refl).
    + done.
Qed.

(** X16.  In every reachable state the contract has granted itself
    access ([FHE.allowThis]) and made publicly decryptable the score
    handle of every review and the content handle of every paper
    record; and it has granted nothing on a handle that did not pass
    [FHE.isInitialized].  [aggregateScores], [publishPaper] and
    [verifyReview] grant nothing: the grants after them are the grants
    before. *)
Theorem grants_cover_inputs :
  (forall s, reachable s -> grants_wf s) /\
  (forall s env c s',
     call s env c = Ok s' ->
     match c with
     | AggregateScores _ | PublishPaper _ | VerifyReview _ _ _ _ =>
         st_grants s' = st_grants s
     | _ => True
     end).
Proof.
  split.
  - induction 1; [apply grants_wf_initial|by eapply grants_wf_call].
  - intros s env c s' Hc.
    destruct c as [id t ct pf|id sc pf cm|id|id|id j cl pf]; cbn in Hc; try done.
    + by apply aggregateScores_writes in Hc as ->.
    + by apply publishPaper_writes in Hc as ->.
    + by apply verifyReview_Ok in Hc as (_ & r & _ & _ & _ & ->).
Qed.

Lemma keys_wf_call s env c s' :
  papers_wf s -> keys_wf s -> call s env c = Ok s' -> keys_wf s'.
Proof.
  intros Hwf Hkeys Hc key r.
  destruct c as [id t ct pf|id sc pf cm|id|id|id j cl pf]; cbn in Hc.
  - apply submitPaper_Ok in Hc as (Hfree & _ & Hp & Hr). rewrite Hr.
    intros H. destruct (Hkeys _ _ H) as (pid & i & r' & -> & Hi & ->).
    exists pid, i, r'. rewrite Hp. case_decide; [subst|done].
    apply Hwf in Hfree as [Hnil _]. by rewrite Hnil in Hi.
  - apply submitReview_Ok in Hc as (_ & _ & Hp & Hr). rewrite Hr, lookup_insert.
    case_decide.
    + intros [= <-]. exists id, (length (reviews (paperAt s id))), (newReview env sc pf cm).
      split; [done|]. split; [|done].
      rewrite Hp, decide_True by done. cbn.
      rewrite lookup_app_r by lia. by rewrite Nat.sub_diag.
    + intros H'. destruct (Hkeys _ _ H') as (pid & i & r' & -> & Hi & ->).
      exists pid, i, r'. split; [done|]. split; [|done].
      rewrite Hp. case_decide; [subst; cbn|done].
      by rewrite lookup_app_l by (by eapply lookup_lt_Some).
  - apply aggregateScores_Ok in Hc as (_ & _ & Hp & Hr). rewrite Hr.
    intros H. destruct (Hkeys _ _ H) as (pid & i & r' & -> & Hi & ->).
    exists pid, i, r'. rewrite Hp. case_decide; [subst; cbn|]; done.
  - apply publishPaper_Ok in Hc as (_ & _ & _ & Hp & Hr). rewrite Hr.
    intros H. destruct (Hkeys _ _ H) as (pid & i & r' & -> & Hi & ->).
    exists pid, i, r'. rewrite Hp. case_decide; [subst; cbn|]; done.
  - apply verifyReview_Ok in Hc as (_ & r0 & Hr0 & _ & _ & ->). cbn [st_reviews write_paper].
    intros H. destruct (Hkeys _ _ H) as (pid & i & r' & -> & Hi & ->).
    destruct (decide (id = pid)) as [->|Hne];
      [|exists pid, i, r'; by rewrite paperAt_write_ne].
    destruct (decide (j = i)) as [->|].
    + exists pid, i, (set_isVerified true r0). split; [done|].
      rewrite paperAt_write_eq. cbn.
      rewrite list_lookup_insert_eq by (by eapply lookup_lt_Some).
      split; [done|]. assert (r0 = r') as -> by congruence. done.
    + exists pid, i, r'. rewrite paperAt_write_eq. cbn.
      by rewrite list_lookup_insert_ne.
Qed.

(** X17.  In every reachable state every entry of the top-level
    [reviews] mapping sits under the key of a review some paper holds,
    and is that review as submitted (unverified): nothing else is ever
    written to the mapping. *)
Theorem reviews_mapping_only_reviews s :
  reachable s -> keys_wf s.
Proof.
  induction 1 as [|s env c s' Hreach IH Hc].
  - intros key r H. cbn in H. by rewrite lookup_empty in H.
  - eapply keys_wf_call; [|done|done]. by apply reachable_wf.
Qed.

(** X18.  The key [abi.encodePacked(paperId, "_", uint256(index))] is
    the paper id followed by 33 bytes, and two keys are equal only for
    the same paper and, for indices below [2 ^ 256], the same index: no
    two reviews share an entry of the top-level mapping. *)
Theorem reviewKey_no_collision paperId paperId' i j :
  String.length (reviewKey paperId i) = String.length paperId + 33 /\
  (reviewKey paperId i = reviewKey paperId' j -> paperId = paperId') /\
  ((N.of_nat i < 2 ^ 256)%N -> (N.of_nat j < 2 ^ 256)%N ->
   reviewKey paperId i = reviewKey paperId' j -> i = j).
Proof.
  split; [|split].
  - unfold reviewKey, uint256_packed.
    rewrite !append_length, be_bytes_length. reflexivity.
  - intros H. by apply reviewKey_inj_packed in H as [H _].
  - intros Hi Hj H. by apply reviewKey_inj in H as [_ H].
Qed.

End GrantsAndKeys.

(** ** Over runs of transactions *)

Section Runs.
Context {F : FHE}.

(** X19.  The id of a paper stored with a title that is not empty is
    taken for good: after any run of transactions, [submitPaper] under
    that id reverts with "Paper already exists", whatever the sender,
    title and input. *)
Theorem titled_paper_final s paperId txs env t ct pf :
  paperExists s paperId ->
  submitPaper (run s txs) env paperId t ct pf = Revert PaperAlreadyExists.
Proof.
  intros Hex. apply submitPaper_existing.
  by apply (metadata_run s paperId txs).
Qed.

(** X20.  The review history of a paper is append-only across runs:
    from a reachable state, after any run of transactions every review
    is still at its index, the same but perhaps verified, a verified
    one still verified, and the paper holds at least as many reviews. *)
Theorem reviews_history_kept s paperId txs i r :
  reachable s ->
  reviews (paperAt s paperId) !! i = Some r ->
  length (reviews (paperAt s paperId)) <= length (reviews (paperAt (run s txs) paperId)) /\
  exists r',
    reviews (paperAt (run s txs) paperId) !! i = Some r' /\
    sameReview r r' /\
    (isVerified r = true -> isVerified r' = true).
Proof.
  intros Hreach Hr.
  pose (P := fun s' : State =>
    reachable s' /\
    length (reviews (paperAt s paperId)) <= length (reviews (paperAt s' paperId)) /\
    forall j q, reviews (paperAt s paperId) !! j = Some q ->
      exists q', reviews (paperAt s' paperId) !! j = Some q' /\
                 sameReview q q' /\ (isVerified q = true -> isVerified q' = true)).
  assert (P (run s txs)) as (_ & Hlen & Hkeep).
  { apply run_invariant.
    - intros s1 env c s2 (Hreach1 & Hlen1 & Hkeep1) Hc.
      pose proof (reachable_wf _ Hreach1) as [Hwf _].
      split; [by eapply reachable_call|]. split.
      + destruct c as [id t ct pf|id sc pf cm|id|id|id j cl pf]; cbn in Hc.
        * pose proof (submitPaper_Ok _ _ _ _ _ _ _ Hc) as (Hfree & _ & Hp & _).
          rewrite Hp. case_decide; [subst|done].
          apply Hwf in Hfree as [Hnil _]. rewrite Hnil in Hlen1. cbn in *. lia.
        * apply submitReview_Ok in Hc as (_ & _ & Hp & _).
          rewrite Hp. case_decide; [subst; cbn; rewrite length_app; lia|done].
        * apply aggregateScores_Ok in Hc as (_ & _ & Hp & _).
          rewrite Hp. case_decide; [subst; cbn|]; done.
        * apply publishPaper_Ok in Hc as (_ & _ & _ & Hp & _).
          rewrite Hp. case_decide; [subst; cbn|]; done.
        * apply verifyReview_Ok in Hc as (_ & r0 & _ & _ & _ & ->).
          rewrite paperAt_write. case_decide; [subst; cbn; by rewrite length_insert|done].
      + intros j q Hq. destruct (Hkeep1 j q Hq) as (q1 & Hq1 & Hsame1 & Hver1).
        destruct (reviews_stay _ _ _ _ _ _ _ Hwf Hc Hq1) as (q2 & Hq2 & Hsame2).
        exists q2. split; [done|]. split; [unfold sameReview in *; congruence|].
        intros Hv. specialize (Hver1 Hv).
        assert (verifiedAt paperId j q1 s1) as Hva.
        { split; [|by exists q1].
          unfold paperExists. destruct (titleLength s1 paperId) eqn:E; [|lia].
          apply Hwf in E as [Hnil _]. by rewrite Hnil in Hq1. }
        destruct (verifiedAt_call _ _ _ _ _ _ _ Hva Hc) as (_ & q3 & Hq3 & Hv3 & _).
        congruence.
    - split; [done|]. split; [done|]. intros j q Hq. by exists q. }
  split; [done|]. by apply Hkeep.
Qed.

End Runs.

(** ** The further properties on the scenario *)

Lemma s_submitted_exists : paperExists s_submitted "p1".
Proof. unfold paperExists. vm_compute. lia. Qed.

Lemma s_reviewed_exists : paperExists s_reviewed "p1".
Proof. unfold paperExists. vm_compute. lia. Qed.

Lemma s_reviewed_first : reviews (paperAt s_reviewed "p1") !! 0 = Some review7.
Proof. vm_compute. reflexivity. Qed.

Lemma initial_submits :
  @submitPaper PlainFHE initial alice "p1" "On sums" (enc 1) "zk" = Ok s_submitted.
Proof.
  apply (transact_committed initial alice (@SubmitPaper PlainFHE "p1" "On sums" (enc 1) "zk")).
  reflexivity.
Qed.

Lemma s_submitted_reviews :
  submitReview s_submitted bob "p1" (enc 7) "zk" "c7"
  = Ok (run s_submitted [(bob, @SubmitReview PlainFHE "p1" (enc 7) "zk" "c7")]).
Proof.
  apply (transact_committed s_submitted bob (@SubmitReview PlainFHE "p1" (enc 7) "zk" "c7")).
  vm_compute. reflexivity.
Qed.

Lemma initial_submits_untitled :
  @submitPaper PlainFHE initial alice "p1" "" (enc 1) "zk" = Ok s_untitled.
Proof.
  apply (transact_committed initial alice (@SubmitPaper PlainFHE "p1" "" (enc 1) "zk")).
  reflexivity.
Qed.

Lemma s_verified_aggregates :
  aggregateScores s_verified "p1"
  = Ok (run s_verified [(alice, @AggregateScores PlainFHE "p1")]).
Proof.
  apply (transact_committed s_verified alice (@AggregateScores PlainFHE "p1")).
  vm_compute. reflexivity.
Qed.

Lemma other_papers_untouched_witness :
  paperAt s_aggregated "p2" = paperAt s_reviewed "p2" /\
  forall i, st_reviews s_aggregated !! reviewKey "p2" i
            = st_reviews s_reviewed !! reviewKey "p2" i.
Proof.
  apply (@other_papers_untouched PlainFHE s_reviewed alice (@AggregateScores PlainFHE "p1") s_aggregated "p2").
  - exact s_reviewed_aggregates.
  - discriminate.
Defined.

Lemma metadata_immutable_witness :
  paperExists (run s_reviewed []) "p1" /\
  metadata (paperAt (run s_reviewed []) "p1") = metadata (paperAt s_reviewed "p1").
Proof. exact (@metadata_immutable PlainFHE s_reviewed "p1" [] s_reviewed_exists). Defined.

Lemma submitPaper_getPaperDetails_witness :
  getPaperDetails s_submitted "p1"
  = Ok ("On sums", 10%N, 100%N, @FHE_zero PlainFHE, false).
Proof.
  apply (proj1 (@submitPaper_getPaperDetails PlainFHE initial alice "p1" "On sums" (enc 1) "zk"
                  s_submitted initial_submits)).
  discriminate.
Defined.

Lemma submitReview_getReviewDetails_witness :
  getReviewDetails (run s_submitted [(bob, @SubmitReview PlainFHE "p1" (enc 7) "zk" "c7")])
    "p1" (length (reviews (paperAt s_submitted "p1")))
  = Ok (@FHE_fromExternal PlainFHE (enc 7) "zk", "c7", 11%N, 101%N, false).
Proof.
  exact (proj1 (@submitReview_getReviewDetails PlainFHE s_submitted bob "p1" (enc 7) "zk" "c7" _
                  s_submitted_reviews)).
Defined.

Lemma review_index_bounds_witness :
  getReviewDetails s_reviewed "p1" 3 = Revert InvalidReviewIndex /\
  verifyReview s_reviewed "p1" 3 clear7 "kms" = Revert InvalidReviewIndex.
Proof.
  destruct (@review_index_bounds PlainFHE s_reviewed "p1" 3 s_reviewed_exists) as [Hget Hver].
  assert (length (reviews (paperAt s_reviewed "p1")) <= 3) as Hlen.
  { apply Nat.leb_le. vm_compute. reflexivity. }
  split; [apply Hget; exact Hlen|apply Hver; exact Hlen].
Defined.

Lemma untitled_paper_unusable_witness :
  aggregateScores s_untitled "p1" = Revert PaperNotFound /\
  getPaperDetails s_untitled "p1" = Revert PaperNotFound.
Proof.
  destruct (@untitled_paper_unusable PlainFHE initial alice "p1" (enc 1) "zk" s_untitled
              initial_submits_untitled) as (_ & _ & Hagg & _ & _ & Hget & _).
  split; [exact Hagg|exact Hget].
Defined.

Lemma verifyReview_commits_witness :
  exists s',
    verifyReview s_reviewed "p1" 0 clear7 "kms" = Ok s' /\
    reviews (paperAt s' "p1") !! 0 = Some (set_isVerified true review7) /\
    st_events s' = st_events s_reviewed.
Proof.
  destruct (@verifyReview_commits PlainFHE s_reviewed "p1" 0 review7 clear7 "kms")
    as (s' & H1 & H2 & _ & _ & _ & _ & _ & _ & _ & H3).
  - exact s_reviewed_exists.
  - exact s_reviewed_first.
  - reflexivity.
  - vm_compute. reflexivity.
  - exists s'. split; [exact H1|]. split; [exact H2|exact H3].
Defined.

Lemma verify_aggregate_commute_witness :
  exists s1',
    aggregateScores s_reviewed "p1" = Ok s1' /\
    verifyReview s1' "p1" 0 clear7 "kms"
    = Ok (run s_verified [(alice, @AggregateScores PlainFHE "p1")]).
Proof.
  exact (@verify_aggregate_commute PlainFHE s_reviewed "p1" 0 clear7 "kms" "p1" s_verified _
           s_reviewed_verifies s_verified_aggregates).
Defined.

Lemma aggregateScores_idempotent_witness :
  exists s2,
    aggregateScores s_aggregated "p1" = Ok s2 /\
    st_papers s2 = st_papers s_aggregated.
Proof.
  destruct (@aggregateScores_idempotent PlainFHE s_reviewed "p1" s_aggregated s_reviewed_aggregates)
    as (s2 & H1 & H2 & _).
  exists s2. split; [exact H1|exact H2].
Defined.

Lemma published_paper_still_open_witness :
  exists s1 s2,
    submitReview s_published bob "p1" (enc 5) "zk" "late" = Ok s1 /\
    isPublished (paperAt s1 "p1") = true /\
    aggregateScores s1 "p1" = Ok s2.
Proof.
  destruct (@published_paper_still_open PlainFHE s_published bob "p1" (enc 5) "zk" "late")
    as (s1 & s2 & H1 & H2 & _ & _ & H3 & _).
  - unfold paperExists. vm_compute. lia.
  - vm_compute. reflexivity.
  - reflexivity.
  - exists s1, s2. split; [exact H1|]. split; [exact H2|exact H3].
Defined.

Lemma review_events_count_witness :
  countEvents (isReviewSubmitted "p1") (st_events s_published)
  = length (reviews (paperAt s_published "p1")).
Proof. exact (@review_events_count PlainFHE s_published "p1" reachable_s_published). Defined.

Lemma published_event_once_witness :
  countEvents (isPaperPublished "p1") (st_events s_published)
  = if isPublished (paperAt s_published "p1") then 1 else 0.
Proof. exact (@published_event_once PlainFHE s_published "p1" reachable_s_published). Defined.

Lemma aggregate_event_matches_witness :
  match lastAggregated "p1" (st_events s_published) with
  | Some h => paperExists s_published "p1" /\ aggregatedScore (paperAt s_published "p1") = h
  | None => paperExists s_published "p1" ->
            aggregatedScore (paperAt s_published "p1") = FHE_zero
  end.
Proof. exact (@aggregate_event_matches PlainFHE s_published "p1" reachable_s_published). Defined.

Lemma submitted_event_matches_witness :
  lastSubmitter "p1" (st_events s_published)
  = @submitter PlainFHE <$> (st_papers s_published !! "p1").
Proof. exact (@submitted_event_matches PlainFHE s_published "p1" reachable_s_published). Defined.

Lemma logs_append_only_witness :
  (exists es, st_events s_verified = st_events s_reviewed ++ es /\ length es = 0) /\
  (exists es, st_events (run s_reviewed []) = st_events s_reviewed ++ es).
Proof.
  destruct (@logs_append_only PlainFHE) as [Hstep Hrun]. split.
  - exact (proj1 (Hstep s_reviewed bob (@VerifyReview PlainFHE "p1" 0 clear7 "kms") s_verified
                    s_reviewed_verifies)).
  - exact (proj1 (Hrun s_reviewed [])).
Defined.

Lemma grants_cover_inputs_witness :
  grants_wf s_reviewed /\ st_grants s_aggregated = st_grants s_reviewed.
Proof.
  destruct (@grants_cover_inputs PlainFHE) as [Hwf Hnone]. split.
  - exact (Hwf s_reviewed reachable_s_reviewed).
  - exact (Hnone s_reviewed alice (@AggregateScores PlainFHE "p1") s_aggregated s_reviewed_aggregates).
Defined.

Lemma reviews_mapping_only_reviews_witness : keys_wf s_verified.
Proof. exact (@reviews_mapping_only_reviews PlainFHE s_verified reachable_s_verified). Defined.

Lemma reviewKey_no_collision_witness :
  String.length (reviewKey "p1" 0) = 35 /\
  (reviewKey "p1" 0 = reviewKey "p1" 1 -> 0 = 1).
Proof.
  destruct (reviewKey_no_collision "p1" "p1" 0 1) as (Hlen & _ & Hinj).
  split; [exact Hlen|]. apply Hinj; reflexivity.
Defined.

Lemma titled_paper_final_witness :
  submitPaper (run s_reviewed []) bob "p1" "Another" (enc 2) "zk"
  = Revert PaperAlreadyExists.
Proof.
  exact (@titled_paper_final PlainFHE s_reviewed "p1" [] bob "Another" (enc 2) "zk"
           s_reviewed_exists).
Defined.

Lemma reviews_history_kept_witness :
  length (reviews (paperAt s_reviewed "p1"))
    <= length (reviews (paperAt (run s_reviewed []) "p1")) /\
  exists r',
    reviews (paperAt (run s_reviewed []) "p1") !! 0 = Some r' /\
    sameReview review7 r' /\
    (isVerified review7 = true -> isVerified r' = true).
Proof.
  exact (@reviews_history_kept PlainFHE s_reviewed "p1" [] 0 review7 reachable_s_reviewed
           s_reviewed_first).
Defined.

Section NeverDeleted.
Context {F : FHE}.



End NeverDeleted.

